(** * TB-Python-SQL-Pull: query compiler, schema check, deduplication and
      archive rotation

    A shallow embedding of [rds_query_utils.py], [rds_processor.py],
    [query_package.py] and the rotation of [s3_bucket_util.py], followed by
    the properties of the specification that were checked against it.

    Conventions.  A Python [str] is represented by the bytes of its UTF-8
    encoding (a [string]); [None]-able arguments are [option]s; a Python
    [int] is a [Z]; dictionaries with a fixed set of keys are records, and
    the [fields] dictionaries, whose insertion order the code iterates on,
    are association lists.  Code that raises returns a [result]. *)

From Stdlib Require Import ZArith NArith Ascii String List Lia.
From stdpp Require Import base numbers list strings pretty.

Local Open Scope Z_scope.

(** ** Outcomes of code that may raise *)

Inductive result (E A : Type) : Type :=
| Ok (a : A)
| Raise (e : E).
Arguments Ok {E A} a.
Arguments Raise {E A} e.

Definition bind {E A B} (r : result E A) (k : A → result E B) : result E B :=
  match r with
  | Ok a => k a
  | Raise e => Raise e
  end.

Notation "'let*' x ':=' r 'in' k" := (bind r (λ x, k))
  (at level 10, x name, r at level 100, k at level 200, only parsing).

(** The line feed that the Python literals spell [\n]. *)
Definition nl : string := String "010"%char EmptyString.

(** [for index, item in enumerate(l): s = body(s, index, item)] *)
Fixpoint for_enumerate {A S : Type} (body : S → nat → A → S)
    (index : nat) (l : list A) (s : S) : S :=
  match l with
  | [] => s
  | item :: l' => for_enumerate body (Datatypes.S index) l' (body s index item)
  end.

(** [for x in l: s = body(s, x)] *)
Definition for_each {A S : Type} (body : S → A → S) (l : list A) (s : S) : S :=
  fold_left body l s.

(** ** [codecs.decode(b, 'unicode_escape')] *)

Module Codecs.

Inductive decode_error : Type :=
| BackslashAtEnd        (* a lone backslash closes the text *)
| TruncatedEscape       (* too few hexadecimal digits after x, u or U *)
| IllegalCharacter      (* a U escape above 0x10FFFF *)
| NamedEscape.          (* N{...}: Python resolves the name in the Unicode
                           name table and raises on an unknown one; this
                           model holds no such table and stops there *)

(** UTF-8 bytes of one code point (the representation of the one-character
    [str] the decoder writes). *)
Definition byte (n : N) : string := String (ascii_of_N n) EmptyString.

Definition utf8 (cp : N) : string :=
  if (cp <? 128)%N then byte cp
  else if (cp <? 2048)%N then
    byte (192 + cp / 64) +:+ byte (128 + cp mod 64)
  else if (cp <? 65536)%N then
    byte (224 + cp / 4096) +:+ byte (128 + (cp / 64) mod 64)
      +:+ byte (128 + cp mod 64)
  else
    byte (240 + cp / 262144) +:+ byte (128 + (cp / 4096) mod 64)
      +:+ byte (128 + (cp / 64) mod 64) +:+ byte (128 + cp mod 64).

Definition octal_digit (c : N) : option N :=
  if ((48 <=? c) && (c <=? 55))%N then Some (c - 48)%N else None.

Definition hex_digit (c : N) : option N :=
  if ((48 <=? c) && (c <=? 57))%N then Some (c - 48)%N
  else if ((97 <=? c) && (c <=? 102))%N then Some (c - 87)%N
  else if ((65 <=? c) && (c <=? 70))%N then Some (c - 55)%N
  else None.

(** Where the decoder stands between two bytes. *)
Inductive state : Type :=
| Plain
| Escape                          (* a backslash was read *)
| Octal (seen : nat) (v : N)      (* [seen] octal digits read, value [v] *)
| Hex (missing : nat) (v : N).    (* hexadecimal digits still expected *)

Definition backslash : N := 92.

Definition plain_step (c : N) : string * state :=
  if (c =? backslash)%N then (EmptyString, Escape) else (utf8 c, Plain).

Definition escape_step (c : N) : result decode_error (string * state) :=
  if (c =? 10)%N then Ok (EmptyString, Plain)          (* line continuation *)
  else if (c =? 92)%N then Ok (utf8 92, Plain)
  else if (c =? 39)%N then Ok (utf8 39, Plain)
  else if (c =? 34)%N then Ok (utf8 34, Plain)
  else if (c =? 98)%N then Ok (utf8 8, Plain)          (* b *)
  else if (c =? 102)%N then Ok (utf8 12, Plain)        (* f *)
  else if (c =? 116)%N then Ok (utf8 9, Plain)         (* t *)
  else if (c =? 110)%N then Ok (utf8 10, Plain)        (* n *)
  else if (c =? 114)%N then Ok (utf8 13, Plain)        (* r *)
  else if (c =? 118)%N then Ok (utf8 11, Plain)        (* v *)
  else if (c =? 97)%N then Ok (utf8 7, Plain)          (* a *)
  else if (c =? 120)%N then Ok (EmptyString, Hex 2 0)  (* x *)
  else if (c =? 117)%N then Ok (EmptyString, Hex 4 0)  (* u *)
  else if (c =? 85)%N then Ok (EmptyString, Hex 8 0)   (* U *)
  else if (c =? 78)%N then Raise NamedEscape           (* N *)
  else match octal_digit c with
       | Some d => Ok (EmptyString, Octal 1 d)
       | None => Ok (utf8 92 +:+ utf8 c, Plain)        (* unknown: kept *)
       end.

Definition step (st : state) (c : N) : result decode_error (string * state) :=
  match st with
  | Plain => Ok (plain_step c)
  | Escape => escape_step c
  | Octal seen v =>
      match octal_digit c with
      | Some d =>
          let v' := (v * 8 + d)%N in
          if (seen <? 2)%nat then Ok (EmptyString, Octal (Datatypes.S seen) v')
          else Ok (utf8 v', Plain)
      | None =>
          let '(out, st') := plain_step c in Ok (utf8 v +:+ out, st')
      end
  | Hex missing v =>
      match hex_digit c with
      | Some d =>
          let v' := (v * 16 + d)%N in
          if (missing <=? 1)%nat then
            if (1114111 <? v')%N then Raise IllegalCharacter
            else Ok (utf8 v', Plain)
          else Ok (EmptyString, Hex (Nat.pred missing) v')
      | None => Raise TruncatedEscape
      end
  end.

Definition finish (st : state) : result decode_error string :=
  match st with
  | Plain => Ok EmptyString
  | Escape => Raise BackslashAtEnd
  | Octal _ v => Ok (utf8 v)
  | Hex _ _ => Raise TruncatedEscape
  end.

Fixpoint run (st : state) (s : string) : result decode_error string :=
  match s with
  | EmptyString => finish st
  | String a s' =>
      let* o := step st (N_of_ascii a) in
      let* rest := run o.2 s' in
      Ok (o.1 +:+ rest)
  end.

(** [codecs.decode(s.encode(), 'unicode_escape')]: [s.encode()] is the
    identity on the representation. *)
Definition unicode_escape (s : string) : result decode_error string :=
  run Plain s.

(** ASCII text without a backslash. *)
Fixpoint plain (s : string) : bool :=
  match s with
  | EmptyString => true
  | String a s' =>
      (N_of_ascii a <? 128)%N && negb (N_of_ascii a =? backslash)%N && plain s'
  end.

End Codecs.

(** ** [rds_query_utils.py] *)

Module RdsQueryUtils.

(** One element of a [fields] list: a dictionary from table column to
    output name, in insertion order. *)
Definition dict : Type := list (string * string).

(** [d[k]], when the key is there. *)
Definition dict_lookup (k : string) (d : dict) : option string :=
  snd <$> find (λ kv, String.eqb kv.1 k) d.

(** [d1 == d2] on dictionaries: the same keys with the same values, whatever
    the insertion order. *)
Definition dict_eqb (d1 d2 : dict) : bool :=
  (length d1 =? length d2)%nat
  && forallb (λ kv, bool_decide (dict_lookup kv.1 d2 = Some kv.2)) d1.

(** The [source] dictionary of a query package.  The record holds every key
    the compiler reads, so the [KeyError] handlers of [build_schema] and
    [build_query] have no counterpart below. *)
Record source : Type := {
  src_table : string;
  src_name : string;
  src_fields : list dict;
  src_project : Z;
  src_order : string
}.

(** One dictionary of the [join_list]. *)
Record join_item : Type := {
  item_name : string;
  item_single_or_repeat : string;
  item_data_source : string;
  item_question_id : Z;
  item_fields : list dict;
  item_clean : list (list (string * list string))
}.

(** *** [unpack_query] *)

Record query_package : Type := {
  pkg_source : option source;            (* [None]: no 'source' key *)
  pkg_join_list : option (list join_item) (* [None]: no 'join_list' key *)
}.

Inductive unpack_error : Type :=
| NoSourceComponent
| NoJoinListComponent.

Definition unpack_query (query_package : option query_package)
  : result unpack_error (option source * option (list join_item)) :=
  match query_package with
  | Some pkg =>
      match pkg_source pkg with
      | Some source =>
          match pkg_join_list pkg with
          | Some join_list => Ok (Some source, Some join_list)
          | None => Raise NoJoinListComponent
          end
      | None => Raise NoSourceComponent
      end
  | None => Ok (None, None)
  end.

(** *** [build_schema] *)

(** [for tn, jn in field.items(): schema_lst.append(jn)] *)
Definition append_names (schema_lst : list string) (field : dict) : list string :=
  for_each (λ lst (kv : string * string), lst ++ [kv.2]) field schema_lst.

Definition build_schema (source : option source)
    (join_list : option (list join_item)) (schema : option (list string))
    (exclude : option (list string)) : list string :=
  let schema_lst : list string :=
    match schema, source, join_list with
    | None, Some source, Some join_list =>
        let schema_lst := for_each append_names (src_fields source) [] in
        for_each (λ lst item, for_each append_names (item_fields item) lst)
          join_list schema_lst
    | Some schema, None, None => schema
    | _, _, _ => []
    end in
  match exclude with
  | Some exclude => filter (λ field, field ∉ exclude) schema_lst
  | None => schema_lst
  end.

(** *** [build_query] *)

(** The select-list lines of the source. *)
Definition add_source_fields (source : source) (query : string) : string :=
  for_each (λ query field,
    for_each (λ query (kv : string * string),
      query +:+ "    " +:+ src_name source +:+ "." +:+ kv.1 +:+ " AS "
        +:+ kv.2 +:+ "," +:+ nl) field query)
    (src_fields source) query.

(** The select-list lines of the joins; the comma is dropped when the item
    is the last one and the dictionary equals the last of its [fields]. *)
Definition add_join_fields (join_list : list join_item) (query : string) : string :=
  for_enumerate (λ query index item,
    for_each (λ query field,
      for_each (λ query (kv : string * string),
        if (Z.of_nat index =? Z.of_nat (length join_list) - 1)
           && match last (item_fields item) with
              | Some final => dict_eqb field final
              | None => false
              end
        then query +:+ "    " +:+ item_name item +:+ "." +:+ kv.1 +:+ " AS "
               +:+ kv.2 +:+ nl
        else query +:+ "    " +:+ item_name item +:+ "." +:+ kv.1 +:+ " AS "
               +:+ kv.2 +:+ "," +:+ nl) field query)
      (item_fields item) query)
    0%nat join_list query.

(** One turn of the join loop; the state is [(query, join_count)]. *)
Definition add_join (st : string * Z) (index : nat) (item : join_item)
  : string * Z :=
  let '(query, join_count) := st in
  let '(data_conn, join_count) :=
    if (index =? 0)%nat then ("initial_join_answers", join_count)
    else ("join_answers_" +:+ pretty join_count, join_count + 1) in
  if String.eqb (item_single_or_repeat item) "SINGLE" then
    let query := query +:+ nl +:+ "LEFT JOIN application_data_answer "
      +:+ data_conn +:+ " ON app.id = " +:+ data_conn
      +:+ ".application_id AND " +:+ data_conn +:+ ".question_id = "
      +:+ pretty (item_question_id item) in
    let query := query +:+ nl +:+ "LEFT JOIN " +:+ item_data_source item
      +:+ " " +:+ item_name item +:+ " ON " +:+ data_conn +:+ ".id = "
      +:+ item_name item +:+ ".answer_ptr_id" +:+ nl in
    (query, join_count)
  else if String.eqb (item_single_or_repeat item) "REPEATING" then
    let query := query +:+ nl +:+ "LEFT JOIN application_data_answer "
      +:+ data_conn
      +:+ " ON initial_join_answers.repeating_answer_section_id = "
      +:+ data_conn +:+ ".repeating_answer_section_id AND " +:+ data_conn
      +:+ ".question_id = " +:+ pretty (item_question_id item) in
    let query := query +:+ nl +:+ "LEFT JOIN " +:+ item_data_source item
      +:+ " " +:+ item_name item +:+ " ON " +:+ data_conn +:+ ".id = "
      +:+ item_name item +:+ ".answer_ptr_id" +:+ nl in
    (query, join_count)
  else (query, join_count).

(** The text held by [query] when the join loop starts (lines 279 to 317),
    with the join counter. *)
Definition query_upto_joins (source : source) (join_list : list join_item)
  : string * Z :=
  let join_count := 1 in
  let query := "SELECT" +:+ nl in
  let query := add_source_fields source query in
  let query := add_join_fields join_list query in
  let query := query +:+ nl +:+ "FROM" +:+ nl in
  let query := query +:+ "    " +:+ src_table source +:+ " "
                 +:+ src_name source +:+ nl in
  (query, join_count).

(** The text assembled on the descriptor path, before it is decoded
    (lines 279 to 362). *)
Definition query_text (source : source) (join_list : list join_item) : string :=
  let '(query, _) :=
    for_enumerate add_join 0%nat join_list (query_upto_joins source join_list) in
  let query := query +:+ nl +:+ " WHERE " +:+ nl in
  let query := query +:+ "    " +:+ src_name source +:+ ".project_id = "
                 +:+ pretty (src_project source) in
  let query := query +:+ nl +:+ " ORDER BY" +:+ nl in
  query +:+ src_name source +:+ "." +:+ src_order source +:+ ";".

Definition build_query (source : option source)
    (join_list : option (list join_item)) (query : option string)
  : result Codecs.decode_error (option string) :=
  match query, source, join_list with
  | None, Some source, Some join_list =>
      let* query := Codecs.unicode_escape (query_text source join_list) in
      Ok (Some query)
  | Some query, None, None => Ok (Some query)
  | _, _, _ => Ok query
  end.

(** *** [query_package.py]: [build_query_package] and its example *)

Definition build_query_package (project_val : Z) (questions : list join_item)
  : query_package :=
  {| pkg_source := Some {|
       src_table := "applications_application";
       src_name := "app";
       src_fields := [[("application_number", "application_number");
                       ("created_at", "created_at")]];
       src_project := project_val;
       src_order := "id" |};
     pkg_join_list := Some questions |}.

End RdsQueryUtils.

(** ** The part of pandas the processor uses *)

Module Pandas.

(** A value in a row. *)
Inductive cell : Type :=
| CNull
| CInt (z : Z)
| CStr (s : string).

#[export] Instance cell_eq_dec : EqDecision cell.
Proof. solve_decision. Defined.

(** A frame: column labels, and the rows with their index labels. *)
Record DataFrame : Type := {
  columns : list string;
  rows : list (nat * list cell)
}.

(** [pd.DataFrame()] *)
Definition empty_frame : DataFrame := {| columns := []; rows := [] |}.

(** [df.empty]: an axis of length zero. *)
Definition empty (df : DataFrame) : bool :=
  (length (columns df) =? 0)%nat || (length (rows df) =? 0)%nat.

(** [pd.DataFrame(rows, columns=columns)] on a list of tuples: short tuples
    are padded with nulls up to the longest one, whose width must be the
    number of column labels; the index is [0 .. n-1].  The cells are kept
    as fetched: the conversion pandas applies to a whole column (an integer
    column holding a null becomes floating point, where integers beyond
    2^53 are rounded) is not modelled, so the frame speaks for the labels,
    the index, the shape and the equality of rows as fetched. *)
Definition pad (width : nat) (r : list cell) : list cell :=
  r ++ replicate (width - length r)%nat CNull.

Definition from_records (data : list (list cell)) (cols : list string)
  : option DataFrame :=
  let width := foldr (λ r w, Nat.max (length r) w) 0%nat data in
  if bool_decide (data = []) || (width =? length cols)%nat then
    Some {| columns := cols;
            rows := imap (λ i r, (i, pad width r)) data |}
  else None.

(** [df.duplicated()], with [keep='first']: the mask of the rows whose
    values already occurred in a row above. *)
Fixpoint duplicated_from (seen : list (list cell)) (rs : list (nat * list cell))
  : list bool :=
  match rs with
  | [] => []
  | r :: rs' => bool_decide (r.2 ∈ seen) :: duplicated_from (seen ++ [r.2]) rs'
  end.

Definition duplicated (df : DataFrame) : list bool :=
  duplicated_from [] (rows df).

(** [df[mask]] for a boolean mask on the same index. *)
Fixpoint select {A : Type} (mask : list bool) (rs : list A) : list A :=
  match mask, rs with
  | b :: mask', r :: rs' => if b then r :: select mask' rs' else select mask' rs'
  | _, _ => []
  end.

Definition getitem_mask (df : DataFrame) (mask : list bool) : DataFrame :=
  {| columns := columns df; rows := select mask (rows df) |}.

(** [df.drop_duplicates()] is [df[~df.duplicated()]]. *)
Definition drop_duplicates (df : DataFrame) : DataFrame :=
  getitem_mask df (map negb (duplicated df)).

End Pandas.

(** ** [rds_processor.py] *)

Module RdsProcessor.
Import Pandas.

(** The cursor: what [execute] then [description] and [fetchall] give for a
    query text, [None] when one of them raises. *)
Definition cursor : Type := string → option (list string * list (list cell)).

Inductive pull_cause : Type :=
| CursorRaised
| FailedToConvert.

Inductive error : Type :=
| UnpackError (e : RdsQueryUtils.unpack_error)
| QueryDecodeError (e : Codecs.decode_error)
| FailedToPullRows (cause : pull_cause)
| EmptyWhenCheckingSchema
| SchemaDidNotMatch
| EmptyFromSqlQuery.

(** [rds_query_utils.rds_sql_pull]; the failure of the conversion is raised
    inside the outer [try], which wraps it again. *)
Definition rds_sql_pull (cursor : cursor) (query : string)
  : result error DataFrame :=
  match cursor query with
  | Some (cols, data) =>
      match from_records data cols with
      | Some df => Ok df
      | None => Raise (FailedToPullRows FailedToConvert)
      end
  | None => Raise (FailedToPullRows CursorRaised)
  end.

(** The attributes of an [RDS] object that its methods read or write. *)
Record RDS : Type := {
  schema : list string;
  query : option string;
  duplicates : DataFrame;
  archive : option (DataFrame * DataFrame);   (* Duplicates, Data *)
  fields_missing : list string;
  df : DataFrame
}.

Definition set_fields_missing (self : RDS) (l : list string) : RDS :=
  {| schema := schema self; query := query self;
     duplicates := duplicates self; archive := archive self;
     fields_missing := l; df := df self |}.

(** [RDS.check_schema]: the outcome and the object afterwards. *)
Definition check_schema (self : RDS) (data : DataFrame)
  : result error bool * RDS :=
  let check := true in
  if negb (empty data) then
    let '(check, missing) :=
      for_each (λ (st : bool * list string) field,
        if bool_decide (field ∉ columns data)
        then (false, st.2 ++ [field])
        else st)
        (schema self) (check, fields_missing self) in
    (Ok check, set_fields_missing self missing)
  else (Raise EmptyWhenCheckingSchema, self).

(** [RDS.query_to_df]: the outcome and the object afterwards. *)
Definition query_to_df (self : RDS) (cursor : cursor)
  : result error DataFrame * RDS :=
  match query self with
  | Some q =>
      match rds_sql_pull cursor q with
      | Ok data =>
          if negb (empty data) then
            match check_schema self data with
            | (Ok true, self) =>
                let data := drop_duplicates data in
                let dups := getitem_mask data (duplicated data) in
                (Ok data,
                 {| schema := schema self; query := query self;
                    duplicates := dups;
                    archive := Some (dups, data);
                    fields_missing := fields_missing self;
                    df := data |})
            | (Ok false, self) => (Raise SchemaDidNotMatch, self)
            | (Raise e, self) => (Raise e, self)
            end
          else (Raise EmptyFromSqlQuery, self)
      | Raise e => (Raise e, self)
      end
  | None => (Raise EmptyFromSqlQuery, self)
  end.

(** [RDS.__init__] *)
Definition init (cursor : cursor)
    (query_package : option RdsQueryUtils.query_package) (auto : bool)
    (schema : option (list string)) (exclude : option (list string))
    (query : option string) : result error RDS :=
  match RdsQueryUtils.unpack_query query_package with
  | Raise e => Raise (UnpackError e)
  | Ok (source, join_list) =>
      match RdsQueryUtils.build_query source join_list query with
      | Raise e => Raise (QueryDecodeError e)
      | Ok query =>
          let self :=
            {| schema := RdsQueryUtils.build_schema source join_list schema exclude;
               query := query;
               duplicates := empty_frame;
               archive := None;
               fields_missing := [];
               df := empty_frame |} in
          if auto then
            match query_to_df self cursor with
            | (Ok data, self) => Ok self
            | (Raise e, _) => Raise e
            end
          else Ok self
      end
  end.

End RdsProcessor.

(** ** [s3_bucket_util.py] *)

Module S3BucketUtil.

(** One entry of a listing's ['Contents']; [LastModified] in seconds. *)
Record s3_object : Type := {
  Key : string;
  LastModified : Z
}.

(** The response of [list_objects_v2]; a key the response does not hold is
    [None].  ['CommonPrefixes'] is kept as the list of its ['Prefix']es. *)
Record list_response : Type := {
  Contents : option (list s3_object);
  CommonPrefixes : option (list string)
}.

(** The client the functions are handed, over its own notion of state.
    Either call may raise ([None]) and may change the state. *)
Class S3Client (St : Type) : Type := {
  list_objects_v2 :
    string (* Bucket *) → string (* Prefix *) → option string (* Delimiter *)
    → St → option list_response * St;
  delete_object :
    string (* Bucket *) → string (* Key *) → St → option unit * St
}.

Inductive error : Type :=
| StuckInWhileLoop                        (* line 279 *)
| ContentsNotFound (folder_key : string)  (* line 294 *)
| FailedToDelete                          (* line 305 *)
| ClientRaised                            (* a listing call raised *)
| MinOfEmptyContents                      (* ValueError at line 291 *)
| NoFolderDates                           (* IndexError at line 298 *)
| NoCommonPrefixes                        (* KeyError at line 309 *)
| OutOfFuel.                              (* the model's own recursion bound *)

(** The store together with the keys deleted so far, in deletion order. *)
Record world (St : Type) : Type := {
  store : St;
  deleted : list string
}.
Arguments store {St} w.
Arguments deleted {St} w.

(** Calls that change the world and may raise. *)
Definition M (St A : Type) : Type := world St → result error A * world St.

Definition ret {St A} (a : A) : M St A := λ w, (Ok a, w).

Definition raise {St A} (e : error) : M St A := λ w, (Raise e, w).

Definition mbind {St A B} (m : M St A) (k : A → M St B) : M St B :=
  λ w, match m w with
       | (Ok a, w') => k a w'
       | (Raise e, w') => (Raise e, w')
       end.

Notation "'let!' x ':=' m 'in' k" := (mbind m (λ x, k))
  (at level 10, x name, m at level 100, k at level 200, only parsing).

Section Client.
Context {St : Type} `{!S3Client St}.

Definition s3_list (bucket prefix : string) (delimiter : option string)
  : M St list_response :=
  λ w, match list_objects_v2 bucket prefix delimiter (store w) with
       | (Some r, st) => (Ok r, {| store := st; deleted := deleted w |})
       | (None, st) => (Raise ClientRaised, {| store := st; deleted := deleted w |})
       end.

(** The [try] around [s3.delete_object]. *)
Definition s3_delete (bucket key : string) : M St unit :=
  λ w, match delete_object bucket key (store w) with
       | (Some _, st) => (Ok tt, {| store := st; deleted := deleted w ++ [key] |})
       | (None, st) => (Raise FailedToDelete, {| store := st; deleted := deleted w |})
       end.

(** [min(l, key=lambda x: x['LastModified'])]: the first of the smallest. *)
Fixpoint py_min (l : list s3_object) : option s3_object :=
  match l with
  | [] => None
  | x :: l' =>
      match py_min l' with
      | Some y => if LastModified x <=? LastModified y then Some x else Some y
      | None => Some x
      end
  end.

(** [l.sort(key=lambda x: x[1])]: the stable sort on the dates. *)
Fixpoint insert_by_date (x : string * Z) (l : list (string * Z))
  : list (string * Z) :=
  match l with
  | [] => [x]
  | y :: l' => if x.2 <=? y.2 then x :: y :: l' else y :: insert_by_date x l'
  end.

Definition sort_by_date (l : list (string * Z)) : list (string * Z) :=
  foldr insert_by_date [] l.

(** [for folder in subfolders: ...] (lines 285 to 294) *)
Fixpoint collect_folder_dates (bucket : string) (subfolders : list string)
    (folder_dates : list (string * Z)) : M St (list (string * Z)) :=
  match subfolders with
  | [] => ret folder_dates
  | folder_key :: subfolders' =>
      let! folder_objects := s3_list bucket folder_key None in
      match Contents folder_objects with
      | Some contents =>
          match py_min contents with
          | Some oldest_object =>
              collect_folder_dates bucket subfolders'
                (folder_dates ++ [(folder_key, LastModified oldest_object)])
          | None => raise MinOfEmptyContents
          end
      | None => raise (ContentsNotFound folder_key)
      end
  end.

Definition max_iterations : Z := 150.

(** The [while folder_count > limit] loop (lines 274 to 310); [fuel]
    bounds the recursion of the model only. *)
Fixpoint while_loop (fuel : nat) (bucket folder_prefix : string) (limit : Z)
    (subfolders : list string) (iteration_counter : Z) : M St unit :=
  match fuel with
  | O => raise OutOfFuel
  | S fuel' =>
      let folder_count := Z.of_nat (length subfolders) in
      if folder_count >? limit then
        let iteration_counter := iteration_counter + 1 in
        if iteration_counter >? max_iterations then raise StuckInWhileLoop
        else
          let! folder_dates := collect_folder_dates bucket subfolders [] in
          match sort_by_date folder_dates with
          | (oldest_folder_key, _) :: _ =>
              let! _ := s3_delete bucket oldest_folder_key in
              let! result := s3_list bucket folder_prefix (Some "/") in
              match CommonPrefixes result with
              | Some subfolders =>
                  while_loop fuel' bucket folder_prefix limit subfolders
                    iteration_counter
              | None => raise NoCommonPrefixes
              end
          | [] => raise NoFolderDates
          end
      else ret tt
  end.

Definition monitor_and_maintain_archive_limit
    (bucket project_folder archive_folder : string) (limit : Z) : M St unit :=
  let folder_prefix := project_folder +:+ archive_folder in
  let! result := s3_list bucket folder_prefix (Some "/") in
  match CommonPrefixes result with
  | Some subfolders =>
      let iteration_counter := 0 in
      while_loop (S (Z.to_nat max_iterations)) bucket folder_prefix limit
        subfolders iteration_counter
  | None => ret tt
  end.

(** A rotation call on a store with nothing deleted yet. *)
Definition rotate (bucket project_folder archive_folder : string)
    (limit : Z) (st : St) : result error unit * world St :=
  monitor_and_maintain_archive_limit bucket project_folder archive_folder
    limit {| store := st; deleted := [] |}.

End Client.

(** *** An archive seen folder by folder *)

(** The sub-folders under the archive prefix, in listing order, each with
    the objects a listing of it returns. *)
Abbreviation archive_view := (list (string * list s3_object)).

(** A listing omits a key whose list would be empty. *)
Definition present {A : Type} (l : list A) : option (list A) :=
  match l with
  | [] => None
  | _ => Some l
  end.

Definition remove_folder (key : string) (a : archive_view) : archive_view :=
  filter (λ f, f.1 ≠ key) a.

(** A store that is exactly such a view: deleting a sub-folder's key removes
    the sub-folder from the next listing. *)
#[export] Instance folder_store : S3Client archive_view := {
  list_objects_v2 _ prefix delimiter a :=
    match delimiter with
    | Some _ =>
        (Some {| Contents := None; CommonPrefixes := present (map fst a) |}, a)
    | None =>
        (Some {| Contents :=
                   present (mjoin (map snd (filter (λ f, f.1 = prefix) a)));
                 CommonPrefixes := None |}, a)
    end;
  delete_object _ key a := (Some tt, remove_folder key a)
}.

(** A store whose listings never change: deletions are accepted and never
    show. *)
Record frozen_store : Type := { frozen_view : archive_view }.

#[export] Instance frozen_client : S3Client frozen_store := {
  list_objects_v2 bucket prefix delimiter s :=
    ((list_objects_v2 bucket prefix delimiter (frozen_view s)).1, s);
  delete_object _ _ s := (Some tt, s)
}.

(** A store of objects grouped by sub-folder, where [delete_object] removes
    the one object that has the key, as line 303 asks of it: a sub-folder
    is listed for as long as an object is left under it. *)
Definition delete_key (key : string) (a : archive_view) : archive_view :=
  map (λ fo, (fo.1, filter (λ o, Key o ≠ key) fo.2)) a.

Definition occupied (a : archive_view) : archive_view :=
  filter (λ fo, (0 < length fo.2)%nat) a.

Record object_store : Type := { folders : archive_view }.

#[export] Instance object_client : S3Client object_store := {
  list_objects_v2 bucket prefix delimiter s :=
    ((list_objects_v2 bucket prefix delimiter (occupied (folders s))).1, s);
  delete_object _ key s :=
    (Some tt, {| folders := delete_key key (folders s) |})
}.

(** Every sub-folder of [a] holds an object whose key is none of [keys]. *)
Definition keeps_payload (keys : list string) (a : archive_view) : Prop :=
  Forall (λ fo, Exists (λ o, Key o ∉ keys) fo.2) a.




(** *** Behaviours of a store *)

Section Behaviours.
Context {St : Type} `{!S3Client St}.
Variables (bucket folder_prefix : string).

(** The store reflects an archive faithfully: in every state that
    [represents] a view, the listings return that view, and deleting the
    key of one of its sub-folders leads to a state that represents the
    view without it. *)
Definition faithful (represents : St → archive_view → Prop) : Prop :=
  (∀ st a, represents st a →
     ∃ resp st',
       list_objects_v2 bucket folder_prefix (Some "/") st = (Some resp, st')
       ∧ CommonPrefixes resp = present (map fst a) ∧ represents st' a)
  ∧ (∀ st a f objs, represents st a → (f, objs) ∈ a →
     ∃ resp st',
       list_objects_v2 bucket f None st = (Some resp, st')
       ∧ Contents resp = present objs ∧ represents st' a)
  ∧ (∀ st a f, represents st a → f ∈ map fst a →
     ∃ st',
       delete_object bucket f st = (Some tt, st')
       ∧ represents st' (remove_folder f a)).

(** The count never drops to the limit: in every state the store can be
    in ([inv]), the listing under the prefix returns more than [limit]
    sub-folders, each sub-folder ([is_folder]) lists at least one object,
    and deleting the key of a sub-folder is accepted and leads to such a
    state again. *)
Definition never_drops (limit : Z) (inv : St → Prop)
    (is_folder : string → Prop) : Prop :=
  (∀ st, inv st →
     ∃ resp st' l,
       list_objects_v2 bucket folder_prefix (Some "/") st = (Some resp, st')
       ∧ CommonPrefixes resp = Some l ∧ limit < Z.of_nat (length l)
       ∧ Forall is_folder l ∧ inv st')
  ∧ (∀ st f, inv st → is_folder f →
     ∃ resp st' o os,
       list_objects_v2 bucket f None st = (Some resp, st')
       ∧ Contents resp = Some (o :: os) ∧ inv st')
  ∧ (∀ st f, inv st → is_folder f →
     ∃ st', delete_object bucket f st = (Some tt, st') ∧ inv st').

End Behaviours.

End S3BucketUtil.

(** ** The specification's own notions *)

Module Spec.
Import RdsQueryUtils.

(** The output names one list of [fields] declares, in declaration order. *)
Definition output_names (fields : list dict) : list string :=
  map snd (concat fields).

(** The concatenation, source first and then join by join, of every declared
    output name. *)
Definition declared_output_names (source : source) (join_list : list join_item)
  : list string :=
  output_names (src_fields source)
    ++ concat (map (λ item, output_names (item_fields item)) join_list).

(** The total count of declared output fields. *)
Definition declared_field_count (source : source) (join_list : list join_item)
  : nat :=
  (sum_list (map length (src_fields source))
   + sum_list (map (λ item, sum_list (map length (item_fields item))) join_list))%nat.

(** The bridge alias of the join item at position [i]: the fixed initial
    name for the first item, a numbered one afterwards. *)
Definition bridge_alias (i : nat) : string :=
  match i with
  | O => "initial_join_answers"
  | _ => "join_answers_" +:+ pretty (Z.of_nat i)
  end.

End Spec.

(** ** The compiled text, clause by clause *)

Module QueryText.
Import RdsQueryUtils.

(** The bridge name the join loop picks at [index] with counter
    [join_count]. *)
Definition data_conn_at (join_count : Z) (index : nat) : string :=
  if (index =? 0)%nat then "initial_join_answers"
  else "join_answers_" +:+ pretty join_count.

(** The typed-answer join, the second line a turn appends. *)
Definition typed_join (data_conn : string) (item : join_item) : string :=
  nl +:+ "LEFT JOIN " +:+ item_data_source item +:+ " " +:+ item_name item
    +:+ " ON " +:+ data_conn +:+ ".id = " +:+ item_name item
    +:+ ".answer_ptr_id" +:+ nl.

(** The text one turn of the join loop appends. *)
Definition join_clause (join_count : Z) (index : nat) (item : join_item)
  : string :=
  let data_conn := data_conn_at join_count index in
  if String.eqb (item_single_or_repeat item) "SINGLE" then
    nl +:+ "LEFT JOIN application_data_answer " +:+ data_conn
      +:+ " ON app.id = " +:+ data_conn +:+ ".application_id AND "
      +:+ data_conn +:+ ".question_id = " +:+ pretty (item_question_id item)
      +:+ typed_join data_conn item
  else if String.eqb (item_single_or_repeat item) "REPEATING" then
    nl +:+ "LEFT JOIN application_data_answer " +:+ data_conn
      +:+ " ON initial_join_answers.repeating_answer_section_id = "
      +:+ data_conn +:+ ".repeating_answer_section_id AND " +:+ data_conn
      +:+ ".question_id = " +:+ pretty (item_question_id item)
      +:+ typed_join data_conn item
  else "".

(** The text assembled when the join loop reaches position [i]. *)
Definition text_before_join (src : source) (jl : list join_item) (i : nat)
  : string :=
  (for_enumerate add_join 0%nat (take i jl) (query_upto_joins src jl)).1.

End QueryText.

(** ** Example inputs *)

Module Examples.
Import RdsQueryUtils Pandas RdsProcessor S3BucketUtil.

(** A source whose alias is not [app]. *)
Definition source_a : source :=
  {| src_table := "applications_application";
     src_name := "a";
     src_fields := [[("application_number", "application_number")]];
     src_project := 34;
     src_order := "id" |}.

Definition single_item : join_item :=
  {| item_name := "hotel_name";
     item_single_or_repeat := "SINGLE";
     item_data_source := "application_data_textboxanswer";
     item_question_id := 10;
     item_fields := [[("value", "x")]];
     item_clean := [] |}.

Definition repeating_item (name : string) (question_id : Z) : join_item :=
  {| item_name := name;
     item_single_or_repeat := "REPEATING";
     item_data_source := "application_data_dateanswer";
     item_question_id := question_id;
     item_fields := [[("value", name)]];
     item_clean := [] |}.

Definition three_joins : list join_item :=
  [single_item; repeating_item "license_in" 1021;
   repeating_item "license_out" 1022].

(** A cursor that answers every query with one column and the same row
    twice. *)
Definition twice_cursor : cursor :=
  λ _, Some (["application_number"], [[CInt 7]; [CInt 7]]).

Definition fresh_rds (schema : list string) (query : option string) : RDS :=
  {| schema := schema; query := query; duplicates := empty_frame;
     archive := None; fields_missing := []; df := empty_frame |}.

Definition one_row (cols : list string) : DataFrame :=
  {| columns := cols; rows := [(0%nat, map (λ _, CInt 1) cols)] |}.

(** Sub-folder number [n], holding its marker and one file, written at
    times [10 n] and [10 n + 1]. *)
Definition snapshot (n : nat) : string * list s3_object :=
  let key := "p/a/" +:+ pretty n +:+ "/" in
  (key, [ {| Key := key; LastModified := 10 * Z.of_nat n |};
          {| Key := key +:+ "Duplicates.csv";
             LastModified := 10 * Z.of_nat n + 1 |} ]).

(** Snapshots [n], [n-1], ..., [1], newest first. *)
Fixpoint snapshots (n : nat) : archive_view :=
  match n with
  | O => []
  | S n' => snapshot n :: snapshots n'
  end.

End Examples.

(** ** [query_package.py]: [set_project] *)

Module QueryPackage.

(** The project dictionary of [set_project]. *)
Definition project_dictionary : list (string * Z) :=
  [("Helene", 34); ("Mitlon", 37)].

Inductive error : Type :=
| ProjectNotInDictionary.

(** [set_project]; its two [print] calls only write to the console. *)
Definition set_project (sel_project : string) : result error Z :=
  match find (λ kv : string * Z, String.eqb kv.1 sel_project)
          project_dictionary with
  | Some kv => Ok kv.2
  | None => Raise ProjectNotInDictionary
  end.

End QueryPackage.

(** ** The select list, line by line *)

Module SelectList.
Import RdsQueryUtils.

(** One line of the select list: [alias.column AS name], with or without the
    separating comma. *)
Record select_line : Type := {
  sl_alias : string;
  sl_column : string;
  sl_name : string;
  sl_comma : bool
}.

Definition render (l : select_line) : string :=
  "    " +:+ sl_alias l +:+ "." +:+ sl_column l +:+ " AS " +:+ sl_name l
    +:+ (if sl_comma l then "," else "") +:+ nl.

Definition render_all (ls : list select_line) : string :=
  foldr (λ l text, render l +:+ text) "" ls.

(** The lines of the source: every one is followed by a comma. *)
Definition source_lines (src : source) : list select_line :=
  map (λ kv : string * string,
         {| sl_alias := src_name src; sl_column := kv.1; sl_name := kv.2;
            sl_comma := true |})
    (concat (src_fields src)).

(** Whether [field] compares equal to the last dictionary of [fields]. *)
Definition equals_last (fields : list dict) (field : dict) : bool :=
  match last fields with
  | Some final => dict_eqb field final
  | None => false
  end.

(** The lines of one join item; [is_last] tells whether it closes the join
    list.  The comma is dropped on every entry of a dictionary that equals
    the item's last one. *)
Definition item_lines (is_last : bool) (item : join_item) : list select_line :=
  concat (map (λ field : dict,
                 map (λ kv : string * string,
                        {| sl_alias := item_name item; sl_column := kv.1;
                           sl_name := kv.2;
                           sl_comma :=
                             negb (is_last
                                   && equals_last (item_fields item) field) |})
                   field)
            (item_fields item)).

(** The lines of the items of [l], which sit at positions [index],
    [index + 1], ... of a join list of [total] items. *)
Fixpoint join_lines_from (total index : nat) (l : list join_item)
  : list select_line :=
  match l with
  | [] => []
  | item :: l' =>
      item_lines (Z.of_nat index =? Z.of_nat total - 1) item
        ++ join_lines_from total (Datatypes.S index) l'
  end.

Definition select_lines (src : source) (jl : list join_item)
  : list select_line :=
  source_lines src ++ join_lines_from (length jl) 0 jl.

(** Descriptors whose interpolated texts are ASCII without a backslash. *)
Definition plain_fields (fields : list dict) : bool :=
  forallb (λ field : dict,
             forallb (λ kv : string * string,
                        Codecs.plain kv.1 && Codecs.plain kv.2) field)
    fields.

Definition plain_source (src : source) : bool :=
  Codecs.plain (src_table src) && Codecs.plain (src_name src)
  && plain_fields (src_fields src) && Codecs.plain (src_order src).

Definition plain_item (item : join_item) : bool :=
  Codecs.plain (item_name item) && Codecs.plain (item_data_source item)
  && plain_fields (item_fields item).

End SelectList.

(** ** [s3_bucket_util.py]: the writers *)

Module S3Archive.
Import Pandas S3BucketUtil.

(** The writing call of the client; [Body] is [None] when the call passes
    none.  The call may raise ([None]) and may change the state. *)
Class S3Writer (St : Type) : Type := {
  put_object :
    string (* Bucket *) → string (* Key *) → option string (* Body *)
    → St → option unit * St
}.

(** A reading of [datetime.now()]. *)
Record datetime : Type := {
  year : nat;
  month : nat;
  day : nat;
  hour : nat;
  minute : nat;
  second : nat
}.

(** Two digits, as the [%m], [%d], [%H], [%M] and [%S] directives write. *)
Definition two_digits (n : nat) : string :=
  if (n <? 10)%nat then "0" +:+ pretty n else pretty n.

(** [t.strftime('%Y-%m-%d' + sep + '%H:%M:%S')], for a year of four digits. *)
Definition strftime (sep : string) (t : datetime) : string :=
  pretty (year t) +:+ "-" +:+ two_digits (month t) +:+ "-"
    +:+ two_digits (day t) +:+ sep +:+ two_digits (hour t) +:+ ":"
    +:+ two_digits (minute t) +:+ ":" +:+ two_digits (second t).

Inductive active_cause : Type :=
| ListingRaised
| FailedToOverwrite          (* line 106 *)
| FirstUploadRaised.

Inductive cycle_cause : Type :=
| NotADictionary             (* [.items()] on the initial list *)
| FailedToUploadDuplicates   (* line 187 *)
| FailedToUploadData.        (* line 203 *)

Inductive archive_error : Type :=
| CouldNotUpdateActive (cause : active_cause)        (* line 112 *)
| FailedToCycle (cause : cycle_cause)                (* line 207 *)
| FailedToCleanArchive (cause : S3BucketUtil.error)  (* line 378 *)
| FailedToUploadFolder                               (* line 389 *)
| FailedToUploadVersions (cause : cycle_cause).      (* line 401 *)

(** What [add_archive_package] is handed: a dictionary from section name to
    table, or the list [[]] an [RDS] object holds before its first pull. *)
Inductive package : Type :=
| NotADict
| Dict (items : list (string * DataFrame)).

(** The [archive] attribute of an [RDS] object as such a package. *)
Definition package_of (archive : option (DataFrame * DataFrame)) : package :=
  match archive with
  | Some (dups, data) => Dict [("Duplicates", dups); ("Data", data)]
  | None => NotADict
  end.

(** The store with its deletions, the uploads done so far in order, and the
    number of clock readings taken. *)
Record session (St : Type) : Type := {
  s3 : world St;
  uploaded : list (string * option string);
  ticks : nat
}.
Arguments s3 {St} s.
Arguments uploaded {St} s.
Arguments ticks {St} s.

Definition Act (St X : Type) : Type :=
  session St → result archive_error X * session St.

Definition aret {St X} (x : X) : Act St X := λ s, (Ok x, s).

Definition araise {St X} (e : archive_error) : Act St X := λ s, (Raise e, s).

Definition abind {St X Y} (m : Act St X) (k : X → Act St Y) : Act St Y :=
  λ s, match m s with
       | (Ok x, s') => k x s'
       | (Raise e, s') => (Raise e, s')
       end.

Notation "'do!' x ':=' m 'in' k" := (abind m (λ x, k))
  (at level 10, x name, m at level 100, k at level 200, only parsing).

Section Writers.
Context {St : Type} `{!S3Client St} `{!S3Writer St}.

(** [df.to_csv()] and the successive readings of the clock. *)
Variable to_csv : DataFrame → string.
Variable clock : nat → datetime.

Definition with_store (s : session St) (st : St) : session St :=
  {| s3 := {| store := st; deleted := deleted (s3 s) |};
     uploaded := uploaded s; ticks := ticks s |}.

(** [s3.list_objects_v2(Bucket=bucket, Prefix=prefix)] *)
Definition listing (bucket prefix : string) (on_raise : archive_error)
  : Act St list_response :=
  λ s, match list_objects_v2 bucket prefix None (store (s3 s)) with
       | (Some r, st) => (Ok r, with_store s st)
       | (None, st) => (Raise on_raise, with_store s st)
       end.

(** [s3.put_object] inside a [try] that raises [on_raise]. *)
Definition put (bucket key : string) (body : option string)
    (on_raise : archive_error) : Act St unit :=
  λ s, match put_object bucket key body (store (s3 s)) with
       | (Some _, st) =>
           (Ok tt, {| s3 := {| store := st; deleted := deleted (s3 s) |};
                      uploaded := uploaded s ++ [(key, body)];
                      ticks := ticks s |})
       | (None, st) => (Raise on_raise, with_store s st)
       end.

(** [datetime.now()] *)
Definition datetime_now : Act St datetime :=
  λ s, (Ok (clock (ticks s)),
        {| s3 := s3 s; uploaded := uploaded s;
           ticks := Datatypes.S (ticks s) |}).

(** [update_active_data] *)
Definition update_active_data (bucket project_folder active_folder
    file_name : string) (data : DataFrame) : Act St unit :=
  let folder_prefix := project_folder +:+ active_folder +:+ file_name in
  do! result := listing bucket folder_prefix
                  (CouldNotUpdateActive ListingRaised) in
  let file_exists :=
    match Contents result with
    | Some contents =>
        existsb (λ item, String.eqb (Key item) folder_prefix) contents
    | None => false
    end in
  if file_exists then
    put bucket folder_prefix (Some (to_csv data))
      (CouldNotUpdateActive FailedToOverwrite)
  else
    put bucket folder_prefix (Some (to_csv data))
      (CouldNotUpdateActive FirstUploadRaised).

(** The loop of [add_archive_package] over the sections. *)
Fixpoint upload_sections (bucket project_folder archive_folder
    date_folder : string) (items : list (string * DataFrame)) : Act St unit :=
  match items with
  | [] => aret tt
  | (section, content) :: items' =>
      if String.eqb section "Duplicates" then
        let folder_prefix :=
          project_folder +:+ archive_folder +:+ date_folder
            +:+ "Duplicates.csv" in
        do! _ := put bucket folder_prefix (Some (to_csv content))
                   (FailedToCycle FailedToUploadDuplicates) in
        upload_sections bucket project_folder archive_folder date_folder items'
      else if String.eqb section "Data" then
        do! now := datetime_now in
        let date := strftime "-" now in
        let folder_prefix :=
          project_folder +:+ archive_folder +:+ date_folder
            +:+ "Archived-Data-" +:+ date +:+ ".csv" in
        do! _ := put bucket folder_prefix (Some (to_csv content))
                   (FailedToCycle FailedToUploadData) in
        upload_sections bucket project_folder archive_folder date_folder items'
      else
        upload_sections bucket project_folder archive_folder date_folder items'
  end.

(** [add_archive_package] *)
Definition add_archive_package (bucket project_folder archive_folder
    date_folder : string) (archive_package : package) : Act St unit :=
  match archive_package with
  | Dict items =>
      upload_sections bucket project_folder archive_folder date_folder items
  | NotADict => araise (FailedToCycle NotADictionary)
  end.

(** The call of [monitor_and_maintain_archive_limit] inside its [try]. *)
Definition clean_archive (bucket project_folder archive_folder : string)
    (limit : Z) : Act St unit :=
  λ s, match monitor_and_maintain_archive_limit bucket project_folder
               archive_folder limit (s3 s) with
       | (Ok _, w) =>
           (Ok tt, {| s3 := w; uploaded := uploaded s; ticks := ticks s |})
       | (Raise e, w) =>
           (Raise (FailedToCleanArchive e),
            {| s3 := w; uploaded := uploaded s; ticks := ticks s |})
       end.

(** The call of [add_archive_package] inside its [try]. *)
Definition upload_versions (bucket project_folder archive_folder
    date_folder : string) (archive_package : package) : Act St unit :=
  λ s, match add_archive_package bucket project_folder archive_folder
               date_folder archive_package s with
       | (Raise (FailedToCycle cause), s') =>
           (Raise (FailedToUploadVersions cause), s')
       | r => r
       end.

(** [add_archive] *)
Definition add_archive (bucket project_folder archive_folder : string)
    (limit : Z) (archive_package : package) : Act St unit :=
  let folder_prefix := project_folder +:+ archive_folder in
  do! _ := clean_archive bucket project_folder archive_folder limit in
  do! now := datetime_now in
  let date_folder := strftime " " now +:+ "/" in
  do! _ := put bucket (folder_prefix +:+ date_folder) None
             FailedToUploadFolder in
  upload_versions bucket project_folder archive_folder date_folder
    archive_package.

(** A session on a store with nothing deleted, uploaded or read yet. *)
Definition fresh_session (st : St) : session St :=
  {| s3 := {| store := st; deleted := [] |}; uploaded := []; ticks := 0 |}.

End Writers.

(** A store that keeps every object put into it, next to a folder view:
    listings read the view, uploads are accepted and recorded. *)
Record bucket_store : Type := {
  view : archive_view;
  objects : list (string * option string)
}.

#[export] Instance bucket_client : S3Client bucket_store := {
  list_objects_v2 bucket prefix delimiter b :=
    ((list_objects_v2 bucket prefix delimiter (view b)).1, b);
  delete_object bucket key b :=
    (Some tt, {| view := remove_folder key (view b); objects := objects b |})
}.

#[export] Instance bucket_writer : S3Writer bucket_store := {
  put_object _ key body b :=
    (Some tt, {| view := view b; objects := objects b ++ [(key, body)] |})
}.

(** The frozen store accepts uploads and never shows them. *)
#[export] Instance frozen_writer : S3Writer frozen_store := {
  put_object _ _ _ s := (Some tt, s)
}.

(** The object store accepts uploads; they land outside the sub-folders it
    groups and do not show in them. *)
#[export] Instance object_writer : S3Writer object_store := {
  put_object _ _ _ s := (Some tt, s)
}.

End S3Archive.

(** ** The decoding on text without escapes *)

Module Latin1.
Import Codecs.



End Latin1.

(** ** More example inputs *)

Module MoreExamples.
Import RdsQueryUtils Pandas RdsProcessor S3BucketUtil S3Archive Examples.

(** A join item whose cardinality is neither of the two the compiler knows. *)
Definition other_item : join_item :=
  {| item_name := "notes";
     item_single_or_repeat := "MULTI";
     item_data_source := "application_data_textboxanswer";
     item_question_id := 77;
     item_fields := [[("value", "notes")]];
     item_clean := [] |}.

(** A cursor whose [execute] raises. *)
Definition broken_cursor : cursor := λ _, None.

(** A stand-in for [to_csv]: the column labels, one per line. *)
Definition csv_header (df : DataFrame) : string :=
  foldr (λ c text, c +:+ nl +:+ text) "" (columns df).

(** A clock that advances by one second at each reading. *)
Definition ticking (n : nat) : datetime :=
  {| year := 2024; month := 11; day := 19; hour := 8; minute := 5;
     second := n |}.

(** A bucket with two snapshots and nothing uploaded yet. *)
Definition small_bucket : bucket_store :=
  {| view := snapshots 2; objects := [] |}.


(** An archive whose second sub-folder lists no object. *)
Definition broken_archive : archive_view :=
  [snapshot 2; ("p/a/1/", [])].

End MoreExamples.

(** * Properties *)

(** ** Strings and loops *)

Lemma append_assoc (a b c : string) : (a +:+ b) +:+ c = a +:+ b +:+ c.
Proof.
  induction a as [|x a IH]; [reflexivity|].
  change (String x ((a +:+ b) +:+ c) = String x (a +:+ b +:+ c)).
  by rewrite IH.
Qed.

Lemma append_nil_r (a : string) : a +:+ "" = a.
Proof.
  induction a as [|x a IH]; [reflexivity|].
  change (String x (a +:+ "") = String x a). by rewrite IH.
Qed.

Lemma for_enumerate_app {A S : Type} (body : S → nat → A → S) l1 l2 i s :
  for_enumerate body i (l1 ++ l2) s
  = for_enumerate body (i + length l1) l2 (for_enumerate body i l1 s).
Proof.
  revert i s. induction l1 as [|x l1 IH]; intros i s; simpl.
  - by rewrite Nat.add_0_r.
  - rewrite IH.
    by replace (Datatypes.S i + length l1)%nat
      with (i + Datatypes.S (length l1))%nat by lia.
Qed.

(** ** The schema list *)

Section Schema.
Import RdsQueryUtils Spec.

Lemma append_names_spec (lst : list string) (field : dict) :
  append_names lst field = lst ++ map snd field.
Proof.
  unfold append_names, for_each. revert lst.
  induction field as [|kv field IH]; intros lst; simpl.
  - by rewrite app_nil_r.
  - rewrite IH. by rewrite <- app_assoc.
Qed.

Lemma append_all_names (fields : list dict) (lst : list string) :
  for_each append_names fields lst = lst ++ output_names fields.
Proof.
  unfold for_each, output_names. revert lst.
  induction fields as [|field fields IH]; intros lst; simpl.
  - by rewrite app_nil_r.
  - rewrite IH, append_names_spec, map_app. by rewrite <- app_assoc.
Qed.

Lemma append_join_names (join_list : list join_item) (lst : list string) :
  for_each (λ lst item, for_each append_names (item_fields item) lst)
    join_list lst
  = lst ++ concat (map (λ item, output_names (item_fields item)) join_list).
Proof.
  unfold for_each at 1. revert lst.
  induction join_list as [|item join_list IH]; intros lst; simpl.
  - by rewrite app_nil_r.
  - rewrite IH, append_all_names. by rewrite <- app_assoc.
Qed.

Lemma output_names_length (fields : list dict) :
  length (output_names fields) = sum_list (map length fields).
Proof.
  unfold output_names. rewrite length_map.
  induction fields as [|field fields IH]; simpl; [done|].
  rewrite length_app. lia.
Qed.

(** C5.  Compiled from a source descriptor and a join list, with no
    explicit schema and no exclusion list, the schema list is the
    concatenation, source first and then join by join, of every declared
    output name; its length is the total count of declared fields. *)
Theorem build_schema_declared_names (src : source) (jl : list join_item) :
  build_schema (Some src) (Some jl) None None = declared_output_names src jl
  ∧ length (build_schema (Some src) (Some jl) None None)
    = declared_field_count src jl.
Proof.
  assert (build_schema (Some src) (Some jl) None None
          = declared_output_names src jl) as ->.
  { unfold build_schema, declared_output_names.
    by rewrite append_join_names, append_all_names. }
  split; [done|].
  unfold declared_output_names, declared_field_count.
  rewrite length_app, output_names_length. f_equal.
  induction jl as [|item jl IH]; simpl; [done|].
  by rewrite length_app, output_names_length, IH.
Qed.

End Schema.

(** ** The query compiler *)

Section Decoder.
Import Codecs.

(** Decoding leaves ASCII text without a backslash as it is. *)
Lemma unicode_escape_plain (s : string) :
  plain s = true → unicode_escape s = Ok s.
Proof.
  unfold unicode_escape. induction s as [|a s IH]; intros Hp; [done|].
  simpl in Hp. apply andb_prop in Hp as [Hp Hs].
  apply andb_prop in Hp as [Hlt Hbs].
  apply negb_true_iff in Hbs.
  cbn [run step]. unfold plain_step. rewrite Hbs.
  unfold utf8. rewrite Hlt. unfold byte. rewrite ascii_N_embedding.
  cbn [bind fst snd]. by rewrite (IH Hs).
Qed.

End Decoder.

Section Compiler.
Import RdsQueryUtils Spec QueryText Examples.

Lemma add_join_spec (query : string) (join_count : Z) (index : nat)
    (item : join_item) :
  add_join (query, join_count) index item
  = (query +:+ join_clause join_count index item,
     if (index =? 0)%nat then join_count else join_count + 1).
Proof.
  unfold add_join, join_clause, data_conn_at, typed_join.
  destruct (index =? 0)%nat;
    destruct (String.eqb (item_single_or_repeat item) "SINGLE");
    try destruct (String.eqb (item_single_or_repeat item) "REPEATING");
    rewrite ?append_assoc, ?append_nil_r; reflexivity.
Qed.

(** The join loop only appends, and its counter follows the index. *)
Lemma add_joins_spec (l : list join_item) (index : nat) (query : string) :
  ∃ text,
    for_enumerate add_join index l (query, Z.max 1 (Z.of_nat index))
    = (query +:+ text, Z.max 1 (Z.of_nat (index + length l))).
Proof.
  revert index query. induction l as [|item l IH]; intros index query.
  - exists "". cbn [for_enumerate length]. by rewrite append_nil_r, Nat.add_0_r.
  - cbn [for_enumerate length]. rewrite add_join_spec.
    replace (if (index =? 0)%nat then Z.max 1 (Z.of_nat index)
             else Z.max 1 (Z.of_nat index) + 1)
      with (Z.max 1 (Z.of_nat (Datatypes.S index))).
    2:{ destruct index; simpl; lia. }
    destruct (IH (Datatypes.S index)
                (query +:+ join_clause (Z.max 1 (Z.of_nat index)) index item))
      as [text ->].
    exists (join_clause (Z.max 1 (Z.of_nat index)) index item +:+ text).
    rewrite append_assoc. do 2 f_equal. lia.
Qed.

Lemma data_conn_bridge (i : nat) :
  data_conn_at (Z.max 1 (Z.of_nat i)) i = bridge_alias i.
Proof.
  destruct i as [|i]; [done|].
  unfold data_conn_at, bridge_alias. simpl (_ =? _)%nat. cbv iota.
  by replace (Z.max 1 (Z.of_nat (Datatypes.S i)))
    with (Z.of_nat (Datatypes.S i)) by lia.
Qed.

(** The assembled text around the clause of the item at position [i]. *)
Lemma query_text_at (src : source) (jl : list join_item) (i : nat)
    (item : join_item) :
  jl !! i = Some item →
  ∃ post,
    query_text src jl
    = text_before_join src jl i +:+ join_clause (Z.max 1 (Z.of_nat i)) i item
        +:+ post.
Proof.
  intros Hi. unfold query_text, text_before_join.
  assert (∃ q0, query_upto_joins src jl = (q0, Z.max 1 (Z.of_nat 0)))
    as [q0 ->] by (eexists; reflexivity).
  replace (for_enumerate add_join 0 jl (q0, Z.max 1 (Z.of_nat 0)))
    with (for_enumerate add_join 0
            (take i jl ++ item :: drop (Datatypes.S i) jl)
            (q0, Z.max 1 (Z.of_nat 0)))
    by (by rewrite take_drop_middle).
  rewrite for_enumerate_app.
  assert (length (take i jl) = i) as Hlen.
  { apply length_take_le. apply lookup_lt_Some in Hi. lia. }
  destruct (add_joins_spec (take i jl) 0 q0) as [t1 ->].
  rewrite Hlen. simpl (0 + i)%nat.
  cbn [for_enumerate fst]. rewrite add_join_spec.
  replace (if (i =? 0)%nat then Z.max 1 (Z.of_nat i)
           else Z.max 1 (Z.of_nat i) + 1)
    with (Z.max 1 (Z.of_nat (Datatypes.S i))).
  2:{ destruct i; simpl; lia. }
  destruct (add_joins_spec (drop (Datatypes.S i) jl) (Datatypes.S i)
              ((q0 +:+ t1) +:+ join_clause (Z.max 1 (Z.of_nat i)) i item))
    as [t2 ->].
  eexists. rewrite !append_assoc. reflexivity.
Qed.

(** One turn of the join loop appends the clause of its item. *)
Lemma text_before_join_step (src : source) (jl : list join_item) (i : nat)
    (item : join_item) :
  jl !! i = Some item →
  text_before_join src jl (Datatypes.S i)
  = text_before_join src jl i +:+ join_clause (Z.max 1 (Z.of_nat i)) i item.
Proof.
  intros Hi. unfold text_before_join.
  rewrite (take_S_r jl i item Hi), for_enumerate_app.
  assert (length (take i jl) = i) as Hlen.
  { apply length_take_le. apply lookup_lt_Some in Hi. lia. }
  assert (∃ q0, query_upto_joins src jl = (q0, Z.max 1 (Z.of_nat 0)))
    as [q0 ->] by (eexists; reflexivity).
  destruct (add_joins_spec (take i jl) 0 q0) as [t ->].
  rewrite Hlen. simpl (0 + i)%nat.
  cbn [for_enumerate fst]. by rewrite add_join_spec.
Qed.

(** A [SINGLE] item at any position puts its answer-header join on [app.id],
    whatever alias the source declares. *)
Lemma single_join_on_app (src : source) (jl : list join_item) (i : nat)
    (item : join_item) :
  jl !! i = Some item →
  item_single_or_repeat item = "SINGLE" →
  ∃ post,
    query_text src jl
    = text_before_join src jl i
        +:+ nl +:+ "LEFT JOIN application_data_answer " +:+ bridge_alias i
        +:+ " ON app.id = " +:+ bridge_alias i +:+ ".application_id AND "
        +:+ bridge_alias i +:+ ".question_id = "
        +:+ pretty (item_question_id item) +:+ post.
Proof.
  intros Hi Hsingle.
  destruct (query_text_at src jl i item Hi) as [post Hq].
  unfold join_clause in Hq. rewrite Hsingle, data_conn_bridge in Hq.
  change (String.eqb "SINGLE" "SINGLE") with true in Hq.
  cbv iota in Hq. rewrite Hq.
  exists (typed_join (bridge_alias i) item +:+ post).
  by rewrite !append_assoc.
Qed.

(** C2 as stated fails: with a literal query and a descriptor pair both
    supplied, the compiler raises nothing and hands the literal back. *)
Lemma build_query_both_not_rejected :
  build_query (Some source_a) (Some [single_item]) (Some "SELECT 1")
    = Ok (Some "SELECT 1")
  ∧ ¬ ∃ e, build_query (Some source_a) (Some [single_item]) (Some "SELECT 1")
           = Raise e.
Proof. split; [reflexivity|]. intros [e He]. discriminate He. Qed.

(** C2, amended.  When a literal query is supplied together with a source
    descriptor and a join list, the compiler raises no error and returns
    the literal query unchanged; the descriptors are ignored. *)
Theorem build_query_both_returns_literal (src : source)
    (jl : list join_item) (q : string) :
  build_query (Some src) (Some jl) (Some q) = Ok (Some q).
Proof. reflexivity. Qed.

(** C6 as stated fails: with nothing supplied the compiler raises nothing
    and returns [None]. *)
Lemma build_query_nothing_not_rejected :
  build_query None None None = Ok None
  ∧ ¬ ∃ e, build_query None None None = Raise e.
Proof. split; [reflexivity|]. intros [e He]. discriminate He. Qed.

(** C6, amended.  With no literal query and no complete descriptor pair
    (the source, the join list or both are missing), the compiler raises no
    error and returns [None]. *)
Theorem build_query_nothing_returns_none (src : option source)
    (jl : option (list join_item)) :
  src = None ∨ jl = None → build_query src jl None = Ok None.
Proof. intros [-> | ->]; [|destruct src]; reflexivity. Qed.

Lemma build_query_nothing_returns_none_witness :
  build_query (Some source_a) None None = Ok None.
Proof.
  apply (build_query_nothing_returns_none (Some source_a) None).
  right. reflexivity.
Defined.

(** The refusal comes later: a processor left without a query raises when
    asked for its table. *)
Lemma query_to_df_without_query (self : RdsProcessor.RDS)
    (cursor : RdsProcessor.cursor) :
  RdsProcessor.query self = None →
  RdsProcessor.query_to_df self cursor
  = (Raise RdsProcessor.EmptyFromSqlQuery, self).
Proof. intros H. unfold RdsProcessor.query_to_df. by rewrite H. Qed.

(** C3 fails on the code: for the source alias [a] and one [SINGLE] item
    with question 10, the answer-header join is written on [app.id], an
    alias the statement does not declare, and not on [a.id]. *)
Theorem single_join_names_app_not_alias :
  build_query (Some source_a) (Some [single_item]) None
  = Ok (Some (
      "SELECT" +:+ nl +:+
      "    a.application_number AS application_number," +:+ nl +:+
      "    hotel_name.value AS x" +:+ nl +:+
      nl +:+ "FROM" +:+ nl +:+
      "    applications_application a" +:+ nl +:+
      nl +:+ "LEFT JOIN application_data_answer initial_join_answers ON app.id = initial_join_answers.application_id AND initial_join_answers.question_id = 10" +:+
      nl +:+ "LEFT JOIN application_data_textboxanswer hotel_name ON initial_join_answers.id = hotel_name.answer_ptr_id" +:+ nl +:+
      nl +:+ " WHERE " +:+ nl +:+
      "    a.project_id = 34" +:+
      nl +:+ " ORDER BY" +:+ nl +:+
      "a.id;")).
Proof. vm_compute. reflexivity. Qed.

(** C4.  A [REPEATING] item at any position [i] of the join list adds to
    the text built for the items before it exactly two joins and nothing
    else: an answer-header join whose predicate keys on the fixed initial
    bridge [initial_join_answers], the bridge of the first item, and on the
    item's own bridge, and whose predicate ends with the item's question id;
    then the typed-answer join on the item's own bridge.  The assembled
    query starts with that text.  From the third position on, the
    predecessor's bridge is a numbered alias different from both, so the
    predicate does not name it (at the second position the predecessor is
    the first item itself).  The compiler returns the assembled query,
    decoded; for ASCII text without backslashes the decoding changes
    nothing. *)
Theorem repeating_join_keys_on_initial_bridge (src : source)
    (jl : list join_item) (i : nat) (item : join_item) :
  jl !! i = Some item →
  item_single_or_repeat item = "REPEATING" →
  text_before_join src jl (Datatypes.S i)
  = text_before_join src jl i
      +:+ nl +:+ "LEFT JOIN application_data_answer " +:+ bridge_alias i
      +:+ " ON initial_join_answers.repeating_answer_section_id = "
      +:+ bridge_alias i +:+ ".repeating_answer_section_id AND "
      +:+ bridge_alias i +:+ ".question_id = "
      +:+ pretty (item_question_id item)
      +:+ nl +:+ "LEFT JOIN " +:+ item_data_source item +:+ " "
      +:+ item_name item +:+ " ON " +:+ bridge_alias i +:+ ".id = "
      +:+ item_name item +:+ ".answer_ptr_id" +:+ nl
  ∧ (∃ post,
       query_text src jl = text_before_join src jl (Datatypes.S i) +:+ post)
  ∧ bridge_alias 0 = "initial_join_answers"
  ∧ ((2 ≤ i)%nat →
     bridge_alias (i - 1) ≠ "initial_join_answers"
     ∧ bridge_alias (i - 1) ≠ bridge_alias i)
  ∧ build_query (Some src) (Some jl) None
    = (let* query := Codecs.unicode_escape (query_text src jl) in
       Ok (Some query))
  ∧ (Codecs.plain (query_text src jl) = true →
     build_query (Some src) (Some jl) None = Ok (Some (query_text src jl))).
Proof.
  intros Hi Hrep.
  assert (join_clause (Z.max 1 (Z.of_nat i)) i item
          = nl +:+ "LEFT JOIN application_data_answer " +:+ bridge_alias i
              +:+ " ON initial_join_answers.repeating_answer_section_id = "
              +:+ bridge_alias i +:+ ".repeating_answer_section_id AND "
              +:+ bridge_alias i +:+ ".question_id = "
              +:+ pretty (item_question_id item)
              +:+ typed_join (bridge_alias i) item) as Hclause.
  { unfold join_clause. rewrite Hrep, data_conn_bridge.
    change (String.eqb "REPEATING" "SINGLE") with false.
    change (String.eqb "REPEATING" "REPEATING") with true.
    reflexivity. }
  split; [|split; [|split; [done|split; [|split; [done|]]]]].
  - rewrite (text_before_join_step src jl i item Hi), Hclause.
    reflexivity.
  - destruct (query_text_at src jl i item Hi) as [post Hq].
    exists post.
    by rewrite (text_before_join_step src jl i item Hi), append_assoc.
  - intros Hge. destruct i as [|[|i]]; [lia..|].
    change (Datatypes.S (Datatypes.S i) - 1)%nat with (Datatypes.S i).
    unfold bridge_alias. split; intros Heq.
    + apply (f_equal (λ s, String.get 0 s)) in Heq. discriminate Heq.
    + apply String.app_inj, pretty_Z_inj in Heq. lia.
  - intros Hp. unfold build_query.
    by rewrite (unicode_escape_plain _ Hp).
Qed.

Lemma repeating_join_keys_on_initial_bridge_witness :
  text_before_join source_a three_joins 3
  = text_before_join source_a three_joins 2
      +:+ nl +:+ "LEFT JOIN application_data_answer join_answers_2"
      +:+ " ON initial_join_answers.repeating_answer_section_id = "
      +:+ "join_answers_2.repeating_answer_section_id AND "
      +:+ "join_answers_2.question_id = 1022"
      +:+ nl +:+ "LEFT JOIN application_data_dateanswer license_out"
      +:+ " ON join_answers_2.id = license_out.answer_ptr_id" +:+ nl.
Proof.
  apply (repeating_join_keys_on_initial_bridge source_a three_joins 2
           (repeating_item "license_out" 1022)); reflexivity.
Defined.

End Compiler.

(** ** Schema validation and deduplication *)

Section Processor.
Import Pandas RdsProcessor Examples.

(** The loop of [check_schema]: the check falls as soon as a field is
    absent, and the absent fields are appended in schema order. *)
Lemma check_loop_spec (cols sch : list string) (check : bool)
    (missing : list string) :
  for_each (λ (st : bool * list string) field,
      if bool_decide (field ∉ cols) then (false, st.2 ++ [field]) else st)
    sch (check, missing)
  = (check && forallb (λ f, bool_decide (f ∈ cols)) sch,
     missing ++ filter (λ f, f ∉ cols) sch).
Proof.
  unfold for_each. revert check missing.
  induction sch as [|f sch IH]; intros check missing; simpl.
  - by rewrite andb_true_r, app_nil_r.
  - rewrite filter_cons. destruct (decide (f ∉ cols)) as [Hf|Hf].
    + rewrite (bool_decide_eq_true_2 _ Hf), IH.
      rewrite (bool_decide_eq_false_2 (f ∈ cols)) by done.
      simpl. by rewrite andb_false_r, <- app_assoc.
    + rewrite (bool_decide_eq_false_2 _ Hf), IH.
      rewrite (bool_decide_eq_true_2 (f ∈ cols)) by (by apply dec_stable).
      done.
Qed.

Lemma check_schema_spec (self : RDS) (data : DataFrame) :
  empty data = false →
  check_schema self data
  = (Ok (forallb (λ f, bool_decide (f ∈ columns data)) (schema self)),
     set_fields_missing self
       (fields_missing self ++ filter (λ f, f ∉ columns data) (schema self))).
Proof.
  intros He. unfold check_schema. rewrite He. cbn [negb].
  by rewrite check_loop_spec.
Qed.

Lemma filter_none {A : Type} (P : A → Prop) `{!∀ x, Decision (P x)}
    (l : list A) :
  (∀ x, x ∈ l → ¬ P x) → filter P l = [].
Proof.
  intros Hno. apply elem_of_nil_inv. intros x [HP Hx]%list_elem_of_filter.
  by apply (Hno x).
Qed.

Lemma filter_single {A : Type} (P : A → Prop) `{!∀ x, Decision (P x)}
    (l : list A) (c : A) :
  NoDup l → c ∈ l → P c → (∀ x, x ∈ l → P x → x = c) → filter P l = [c].
Proof.
  induction l as [|x l IH]; intros Hnd Hin Hc Huniq.
  - by apply elem_of_nil in Hin.
  - apply NoDup_cons in Hnd as [Hx Hnd]. rewrite filter_cons.
    assert (∀ y, y ∈ l → P y → y = c) as Hl.
    { intros y Hy. apply Huniq. by right. }
    apply elem_of_cons in Hin as [<- | Hin].
    + rewrite decide_True by done. f_equal.
      apply filter_none. intros y Hy HP.
      apply Hl in HP; [|done]. by subst.
    + destruct (decide (P x)) as [HP|HP]; [|by apply IH].
      assert (x = c) as -> by (apply Huniq; [by left|done]). done.
Qed.

(** C9.  For a table with rows and columns that lacks exactly one column
    [c] of the expected schema, and a missing-field record that starts
    empty, validation returns false and the record then holds [c] and
    nothing else (once, when the schema names [c] once). *)
Theorem check_schema_one_missing (self : RDS) (data : DataFrame) (c : string) :
  empty data = false →
  fields_missing self = [] →
  c ∈ schema self →
  c ∉ columns data →
  (∀ f, f ∈ schema self → f ≠ c → f ∈ columns data) →
  ∃ self',
    check_schema self data = (Ok false, self')
    ∧ (∀ f, f ∈ fields_missing self' ↔ f = c)
    ∧ (NoDup (schema self) → fields_missing self' = [c]).
Proof.
  intros He Hm Hc Hcn Hothers.
  rewrite (check_schema_spec _ _ He), Hm. cbn [app].
  eexists. split; [|split].
  - f_equal. f_equal. apply not_true_is_false. intros Hall.
    rewrite forallb_forall in Hall. apply list_elem_of_In in Hc.
    specialize (Hall c Hc). by apply bool_decide_eq_true in Hall.
  - intros f. unfold set_fields_missing. cbn [fields_missing].
    rewrite list_elem_of_filter. split.
    + intros [Hf Hin]. destruct (decide (f = c)) as [|Hne]; [done|].
      by destruct Hf; apply Hothers.
    + by intros ->.
  - intros Hnd. unfold set_fields_missing. cbn [fields_missing].
    apply filter_single; [done..|].
    intros f Hin Hf. destruct (decide (f = c)) as [|Hne]; [done|].
    by destruct Hf; apply Hothers.
Qed.

Lemma check_schema_one_missing_witness :
  ∃ self',
    check_schema (fresh_rds ["application_number"; "x"] None)
      (one_row ["application_number"]) = (Ok false, self')
    ∧ (∀ f, f ∈ fields_missing self' ↔ f = "x")
    ∧ (NoDup ["application_number"; "x"] → fields_missing self' = ["x"]).
Proof.
  apply (check_schema_one_missing
           (fresh_rds ["application_number"; "x"] None)
           (one_row ["application_number"]) "x").
  - reflexivity.
  - reflexivity.
  - apply elem_of_cons. right. apply elem_of_cons. by left.
  - intros Hin. apply list_elem_of_singleton in Hin. discriminate Hin.
  - intros f Hf Hne.
    apply elem_of_cons in Hf as [-> | Hf]; [by left|].
    apply elem_of_cons in Hf as [-> | Hf]; [done|].
    by apply elem_of_nil in Hf.
Defined.

(** C10.  Validation looks for the expected columns only: for a table with
    rows and columns whose columns include every field of the schema,
    whatever else they include and in whatever order, it returns true and
    leaves the object, its missing-field record included, as it was. *)
Theorem check_schema_superset (self : RDS) (data : DataFrame) :
  empty data = false →
  (∀ f, f ∈ schema self → f ∈ columns data) →
  check_schema self data = (Ok true, self)
  ∧ (fields_missing self = [] →
     fields_missing (check_schema self data).2 = []).
Proof.
  intros He Hsup.
  assert (check_schema self data = (Ok true, self)) as ->.
  { rewrite (check_schema_spec _ _ He). f_equal.
    - f_equal. apply forallb_forall. intros f Hf.
      apply bool_decide_eq_true. apply Hsup. by apply list_elem_of_In.
    - replace (filter (λ f, f ∉ columns data) (schema self)) with (@nil string).
      + rewrite app_nil_r. by destruct self.
      + symmetry. apply filter_none.
        intros f Hf Hn. by apply Hn, Hsup. }
  done.
Qed.

Lemma check_schema_superset_witness :
  check_schema (fresh_rds ["x"] None) (one_row ["extra"; "x"; "more"])
  = (Ok true, fresh_rds ["x"] None).
Proof.
  apply (check_schema_superset (fresh_rds ["x"] None)
           (one_row ["extra"; "x"; "more"])).
  - reflexivity.
  - intros f Hf. apply list_elem_of_singleton in Hf as ->.
    apply elem_of_cons. right. apply elem_of_cons. by left.
Defined.

(** After [drop_duplicates] no row repeats one above it. *)
Lemma duplicated_after_drop (rs : list (nat * list cell))
    (seen seen' : list (list cell)) :
  (∀ v, v ∈ seen ↔ v ∈ seen') →
  Forall (λ b, b = false)
    (duplicated_from seen' (select (map negb (duplicated_from seen rs)) rs)).
Proof.
  revert seen seen'. induction rs as [|r rs IH]; intros seen seen' Hsame.
  - constructor.
  - cbn [duplicated_from map select].
    destruct (decide (r.2 ∈ seen)) as [Hin|Hin].
    + rewrite (bool_decide_eq_true_2 _ Hin). cbn [negb].
      apply IH. intros v. rewrite elem_of_app, list_elem_of_singleton.
      rewrite <- Hsame. split; [intros [?| ->]; done | by left].
    + rewrite (bool_decide_eq_false_2 _ Hin). cbn [negb duplicated_from].
      constructor.
      * apply bool_decide_eq_false. by rewrite <- Hsame.
      * apply IH. intros v. rewrite !elem_of_app. by rewrite Hsame.
Qed.

Lemma select_all_false {A : Type} (mask : list bool) (rs : list A) :
  Forall (λ b, b = false) mask → select mask rs = [].
Proof.
  intros H. revert rs. induction H as [|b mask -> _ IH]; intros rs.
  - by destruct rs.
  - destruct rs; [done|]. apply IH.
Qed.

(** Whatever the table, the mask taken after the rows were dropped selects
    nothing. *)
Lemma duplicates_taken_after_drop_empty (data : DataFrame) :
  rows (getitem_mask (drop_duplicates data)
          (duplicated (drop_duplicates data))) = [].
Proof.
  unfold getitem_mask at 1. cbn [rows]. apply select_all_false.
  unfold duplicated, drop_duplicates, getitem_mask. cbn [rows].
  by apply duplicated_after_drop.
Qed.

(** Every successful [query_to_df] leaves an empty duplicates table. *)
Lemma query_to_df_duplicates_empty (self self' : RDS) (cursor : cursor)
    (data : DataFrame) :
  query_to_df self cursor = (Ok data, self') → rows (duplicates self') = [].
Proof.
  unfold query_to_df. intros H.
  destruct (query self); [|done].
  destruct (rds_sql_pull cursor s) as [d|]; [|done].
  destruct (negb (empty d)); [|done].
  destruct (check_schema self d) as [[[|]|] self1]; [|done..].
  injection H as _ <-. cbn [duplicates].
  apply duplicates_taken_after_drop_empty.
Qed.

(** C1 fails on the code: a pulled table that passes validation and holds
    the same row twice comes back with the second row removed, yet the
    duplicates table (and the archive's) is empty, although the removed row,
    the one the mask of the pulled table selects, is row 1. *)
Theorem query_to_df_loses_removed_rows :
  let self := fresh_rds ["application_number"] (Some "SELECT 1") in
  let pulled :=
    {| columns := ["application_number"];
       rows := [(0%nat, [CInt 7]); (1%nat, [CInt 7])] |} in
  let clean :=
    {| columns := ["application_number"]; rows := [(0%nat, [CInt 7])] |} in
  let no_rows := {| columns := ["application_number"]; rows := [] |} in
  rds_sql_pull twice_cursor "SELECT 1" = Ok pulled
  ∧ rows (getitem_mask pulled (duplicated pulled)) = [(1%nat, [CInt 7])]
  ∧ query_to_df self twice_cursor
    = (Ok clean,
       {| schema := ["application_number"]; query := Some "SELECT 1";
          duplicates := no_rows; archive := Some (no_rows, clean);
          fields_missing := []; df := clean |}).
Proof. vm_compute. done. Qed.

End Processor.

(** ** Archive rotation *)

Section Selection.
Import S3BucketUtil.

Lemma elem_of_map {A B : Type} (f : A → B) (l : list A) (y : B) :
  y ∈ map f l ↔ ∃ x, y = f x ∧ x ∈ l.
Proof. apply (list_elem_of_fmap f). Qed.

(** [min] returns an object of the list that no other is older than. *)
Lemma py_min_spec (objs : list s3_object) :
  objs ≠ [] →
  ∃ o, py_min objs = Some o ∧ o ∈ objs
       ∧ ∀ o', o' ∈ objs → LastModified o ≤ LastModified o'.
Proof.
  induction objs as [|x objs IH]; [done|]. intros _.
  destruct objs as [|y objs'].
  - exists x. split; [done|]. split; [apply elem_of_cons; by left|].
    intros o' ->%list_elem_of_singleton. lia.
  - destruct IH as (m & Hm & Hin & Hle); [done|].
    change (py_min (x :: y :: objs'))
      with (match py_min (y :: objs') with
            | Some z => if LastModified x <=? LastModified z
                        then Some x else Some z
            | None => Some x
            end).
    rewrite Hm. destruct (Z.leb_spec (LastModified x) (LastModified m)).
    + exists x. split; [done|]. split; [apply elem_of_cons; by left|].
      intros o' [-> | Ho']%elem_of_cons; [lia|].
      specialize (Hle o' Ho'). lia.
    + exists m. split; [done|]. split; [apply elem_of_cons; by right|].
      intros o' [-> | Ho']%elem_of_cons; [lia|]. by apply Hle.
Qed.

(** The sort puts first an entry that no other is dated before. *)
Lemma sort_by_date_head (l : list (string * Z)) :
  l ≠ [] →
  ∃ x rest, sort_by_date l = x :: rest ∧ x ∈ l
            ∧ ∀ y, y ∈ l → x.2 ≤ y.2.
Proof.
  induction l as [|a l IH]; [done|]. intros _.
  destruct l as [|b l'].
  - exists a, []. split; [done|]. split; [apply elem_of_cons; by left|].
    intros y ->%list_elem_of_singleton. lia.
  - destruct IH as (m & rest & Hs & Hin & Hle); [done|].
    change (sort_by_date (a :: b :: l'))
      with (insert_by_date a (sort_by_date (b :: l'))).
    rewrite Hs. cbn [insert_by_date].
    destruct (Z.leb_spec a.2 m.2).
    + exists a, (m :: rest). split; [done|].
      split; [apply elem_of_cons; by left|].
      intros y [-> | Hy]%elem_of_cons; [lia|].
      specialize (Hle y Hy). lia.
    + exists m, (insert_by_date a rest). split; [done|].
      split; [apply elem_of_cons; by right|].
      intros y [-> | Hy]%elem_of_cons; [lia|]. by apply Hle.
Qed.

Lemma remove_folder_subset (f : string) (a : archive_view) fo :
  fo ∈ remove_folder f a → fo ∈ a.
Proof. unfold remove_folder. by intros [_ ?]%list_elem_of_filter. Qed.

Lemma remove_folder_nodup (f : string) (a : archive_view) :
  NoDup (map fst a) → NoDup (map fst (remove_folder f a)).
Proof.
  induction a as [|[g objs] a IH]; intros Hnd; [done|].
  cbn [map fst] in Hnd. apply NoDup_cons in Hnd as [Hg Hnd].
  unfold remove_folder. rewrite filter_cons. cbn [fst].
  destruct (decide (g ≠ f)); [|by apply IH].
  cbn [map fst]. apply NoDup_cons. split; [|by apply IH].
  intros (fo & -> & Hfo)%elem_of_map. apply Hg.
  apply elem_of_map. exists fo. split; [done|].
  by apply remove_folder_subset in Hfo.
Qed.



End Selection.

Section Rotation.
Import S3BucketUtil.
Context {St : Type} `{!S3Client St}.
Variables (bucket project_folder archive_folder : string) (limit : Z).

Local Abbreviation folder_prefix := (project_folder +:+ archive_folder).

Lemma s3_list_run (prefix : string) (delimiter : option string)
    (w : world St) resp st' :
  list_objects_v2 bucket prefix delimiter (store w) = (Some resp, st') →
  s3_list bucket prefix delimiter w
  = (Ok resp, {| store := st'; deleted := deleted w |}).
Proof. intros Heq. unfold s3_list. by rewrite Heq. Qed.

Lemma s3_delete_run (key : string) (w : world St) u st' :
  delete_object bucket key (store w) = (Some u, st') →
  s3_delete bucket key w
  = (Ok tt, {| store := st'; deleted := deleted w ++ [key] |}).
Proof. intros Heq. unfold s3_delete. by rewrite Heq. Qed.

(** Listing the sub-folders deletes nothing and never exhausts the model's
    fuel. *)
Lemma collect_keeps_deleted (subfolders : list string)
    (acc : list (string * Z)) (w : world St) :
  deleted (collect_folder_dates bucket subfolders acc w).2 = deleted w
  ∧ (collect_folder_dates bucket subfolders acc w).1 ≠ Raise OutOfFuel.
Proof.
  revert acc w. induction subfolders as [|f subfolders IH]; intros acc w.
  - done.
  - cbn [collect_folder_dates]. unfold mbind, s3_list.
    destruct (list_objects_v2 bucket f None (store w)) as [[resp|] st'];
      [|done].
    destruct (Contents resp) as [contents|]; [|done].
    destruct (py_min contents); [|done].
    apply (IH _ {| store := st'; deleted := deleted w |}).
Qed.

(** From counter [c] on, the loop deletes at most [max_iterations - c] keys,
    and with more fuel than that it never runs out of it. *)
Lemma while_loop_bounded (fuel : nat) (subfolders : list string) (c : Z)
    (w : world St) :
  0 ≤ c ≤ max_iterations →
  ∃ ds,
    deleted (while_loop fuel bucket folder_prefix limit subfolders c w).2
    = deleted w ++ ds
    ∧ Z.of_nat (length ds) ≤ max_iterations - c
    ∧ ((Z.to_nat (max_iterations - c) < fuel)%nat →
       (while_loop fuel bucket folder_prefix limit subfolders c w).1
       ≠ Raise OutOfFuel).
Proof.
  revert subfolders c w.
  induction fuel as [|fuel IH]; intros subfolders c w Hc.
  { exists []. rewrite app_nil_r. cbn. repeat split; lia. }
  assert (∀ (e : error) (w' : world St) (ds : list string),
            e ≠ OutOfFuel → deleted w' = deleted w ++ ds →
            Z.of_nat (length ds) ≤ max_iterations - c →
            ∃ ds, deleted (Raise (A:=unit) e, w').2 = deleted w ++ ds
                  ∧ Z.of_nat (length ds) ≤ max_iterations - c
                  ∧ ((Z.to_nat (max_iterations - c) < Datatypes.S fuel)%nat →
                     (Raise (A:=unit) e, w').1 ≠ Raise OutOfFuel)) as Hstop.
  { intros e w' ds He Hw Hlen. exists ds. cbn.
    repeat split; [done|lia|congruence]. }
  cbn [while_loop]. unfold mbind, s3_delete, s3_list, raise, ret.
  destruct (Z.of_nat (length subfolders) >? limit).
  2:{ exists []. rewrite app_nil_r. cbn. repeat split; [lia|done]. }
  destruct (Z.gtb_spec (c + 1) max_iterations) as [Hover|Hin].
  { apply (Hstop _ _ []); [done|by rewrite app_nil_r|cbn; lia]. }
  pose proof (collect_keeps_deleted subfolders [] w) as [Hdel Hfuel].
  destruct (collect_folder_dates bucket subfolders [] w) as [[dates|e] w1].
  2:{ apply (Hstop _ _ []); [|by rewrite app_nil_r|cbn; lia].
      cbn in Hfuel. congruence. }
  cbn [snd] in Hdel.
  destruct (sort_by_date dates) as [|[key date] rest].
  { apply (Hstop _ _ []); [done|by rewrite app_nil_r|cbn; lia]. }
  destruct (delete_object bucket key (store w1)) as [[u|] st2].
  2:{ apply (Hstop _ _ []); [done|by rewrite app_nil_r|cbn; lia]. }
  cbn [store deleted].
  destruct (list_objects_v2 bucket folder_prefix (Some "/") st2)
    as [[resp|] st3].
  2:{ apply (Hstop _ _ [key]); [done|cbn; by rewrite Hdel|cbn; lia]. }
  destruct (CommonPrefixes resp) as [subfolders'|].
  2:{ apply (Hstop _ _ [key]); [done|cbn; by rewrite Hdel|cbn; lia]. }
  destruct (IH subfolders' (c + 1)
              {| store := st3; deleted := deleted w1 ++ [key] |})
    as (ds & Hds & Hlen & Hf); [lia|].
  exists (key :: ds). split; [|split].
  - rewrite Hds. cbn [deleted]. rewrite Hdel. by rewrite <- app_assoc.
  - cbn [length]. lia.
  - intros Hlt. apply Hf. unfold max_iterations in *. lia.
Qed.

(** X28.  Whatever the store does, a rotation call comes back without
    exhausting the model's fuel and deletes at most 150 keys. *)
Lemma rotate_bounded (st : St) :
  (length (deleted (rotate bucket project_folder archive_folder limit st).2)
   ≤ 150)%nat
  ∧ (rotate bucket project_folder archive_folder limit st).1 ≠ Raise OutOfFuel.
Proof.
  unfold rotate, monitor_and_maintain_archive_limit, mbind, s3_list.
  cbn [store deleted].
  destruct (list_objects_v2 bucket folder_prefix (Some "/") st)
    as [[resp|] st1]; [|cbn; split; [lia|done]].
  destruct (CommonPrefixes resp) as [subfolders|]; [|cbn; split; [lia|done]].
  destruct (while_loop_bounded (Datatypes.S (Z.to_nat max_iterations))
              subfolders 0 {| store := st1; deleted := [] |})
    as (ds & Hds & Hlen & Hf); [unfold max_iterations; lia|].
  split.
  - rewrite Hds. cbn [deleted app]. unfold max_iterations in Hlen. lia.
  - apply Hf. unfold max_iterations. lia.
Qed.

Section Stuck.
Variables (inv : St → Prop) (is_folder : string → Prop).
Hypothesis Hlimit : 0 ≤ limit.
Hypothesis Hstuck : never_drops bucket folder_prefix limit inv is_folder.

Lemma collect_stuck (subfolders : list string) (acc : list (string * Z))
    (w : world St) :
  inv (store w) → Forall is_folder subfolders →
  Forall (λ d, is_folder d.1) acc →
  ∃ dates w',
    collect_folder_dates bucket subfolders acc w = (Ok dates, w')
    ∧ length dates = (length acc + length subfolders)%nat
    ∧ Forall (λ d, is_folder d.1) dates
    ∧ inv (store w') ∧ deleted w' = deleted w.
Proof.
  revert acc w.
  induction subfolders as [|f subfolders IH]; intros acc w Hinv Hall Hacc.
  - exists acc, w. cbn. repeat split; [lia|done..].
  - apply Forall_cons in Hall as [Hf Hall].
    destruct Hstuck as (_ & Hcontents & _).
    destruct (Hcontents (store w) f Hinv Hf)
      as (resp & st' & o & os & Heq & Hc & Hinv').
    cbn [collect_folder_dates]. unfold mbind at 1.
    rewrite (s3_list_run _ _ _ _ _ Heq), Hc.
    destruct (py_min_spec (o :: os)) as (m & -> & _); [done|].
    destruct (IH (acc ++ [(f, LastModified m)])
                {| store := st'; deleted := deleted w |} Hinv' Hall)
      as (dates & w' & -> & Hlen & Hdates & Hinv'' & Hdel).
    { apply Forall_app. split; [done|]. by apply Forall_singleton. }
    exists dates, w'. repeat split; [|done..].
    rewrite Hlen, length_app. cbn. lia.
Qed.

(** With [n] turns left before the ceiling, a stuck loop deletes [n] keys
    more and then raises. *)
Lemma stuck_loop (n : nat) :
  ∀ (fuel : nat) (subfolders : list string) (c : Z) (w : world St),
    inv (store w) → limit < Z.of_nat (length subfolders) →
    Forall is_folder subfolders →
    c = max_iterations - Z.of_nat n → 0 ≤ c → (n < fuel)%nat →
    ∃ w',
      while_loop fuel bucket folder_prefix limit subfolders c w
      = (Raise StuckInWhileLoop, w')
      ∧ length (deleted w') = (length (deleted w) + n)%nat
      ∧ inv (store w').
Proof.
  induction n as [|n IH]; intros fuel subfolders c w Hinv Hcount Hall Hc H0 Hfuel;
    (destruct fuel as [|fuel]; [lia|]); cbn [while_loop];
    (destruct (Z.gtb_spec (Z.of_nat (length subfolders)) limit); [|lia]).
  - destruct (Z.gtb_spec (c + 1) max_iterations); [|lia].
    exists w. cbn. repeat split; [lia|done].
  - destruct (Z.gtb_spec (c + 1) max_iterations); [lia|].
    destruct (collect_stuck subfolders [] w Hinv Hall)
      as (dates & w1 & Hcol & Hlen & Hdates & Hinv1 & Hdel1); [done|].
    unfold mbind at 1. rewrite Hcol.
    destruct (sort_by_date_head dates) as ([key date] & rest & -> & Hin & _).
    { intros ->. cbn in Hlen. lia. }
    rewrite Forall_forall in Hdates. pose proof (Hdates _ Hin) as Hkey.
    cbn [fst] in Hkey.
    destruct Hstuck as (Hlist & _ & Hdelete).
    destruct (Hdelete (store w1) key Hinv1 Hkey) as (st2 & Hd & Hinv2).
    unfold mbind at 1. rewrite (s3_delete_run _ _ _ _ Hd).
    destruct (Hlist st2 Hinv2) as (resp & st3 & l & Hl & Hcp & Hgt & Hfl & Hinv3).
    unfold mbind.
    rewrite (s3_list_run _ _ {| store := st2; deleted := deleted w1 ++ [key] |}
               _ _ Hl), Hcp.
    cbn [deleted store].
    destruct (IH fuel l (c + 1)
                {| store := st3; deleted := deleted w1 ++ [key] |})
      as (w' & Hrun & Hlen' & Hinv'); [done|done|done|lia|lia|lia|].
    exists w'. split; [exact Hrun|]. split; [|done].
    rewrite Hlen'. cbn [deleted]. rewrite length_app, Hdel1. cbn. lia.
Qed.

Lemma rotate_stuck (st : St) :
  inv st →
  ∃ w',
    rotate bucket project_folder archive_folder limit st
    = (Raise StuckInWhileLoop, w')
    ∧ length (deleted w') = 150%nat.
Proof.
  intros Hinv. destruct Hstuck as (Hlist & _).
  destruct (Hlist st Hinv) as (resp & st1 & l & Hl & Hcp & Hgt & Hfl & Hinv1).
  unfold rotate, monitor_and_maintain_archive_limit, mbind.
  rewrite (s3_list_run _ _ {| store := st; deleted := [] |} _ _ Hl), Hcp.
  destruct (stuck_loop 150 (Datatypes.S (Z.to_nat max_iterations)) l 0
              {| store := st1; deleted := [] |})
    as (w' & Hrun & Hlen & _); [done|done|done|done|lia| |].
  { unfold max_iterations. lia. }
  exists w'. split; [exact Hrun|exact Hlen].
Qed.

End Stuck.

Section Faithful.
Variable represents : St → archive_view → Prop.
Hypothesis Hlimit : 0 ≤ limit.
Hypothesis Hfaithful : faithful bucket folder_prefix represents.




End Faithful.

End Rotation.

Section Stores.
Import S3BucketUtil Examples.

(** With distinct sub-folder keys, the objects listed under a key are those
    of its sub-folder. *)
Lemma folder_contents (a : archive_view) (f : string) (objs : list s3_object) :
  NoDup (map fst a) → (f, objs) ∈ a →
  mjoin (map snd (filter (λ fo : string * list s3_object, fo.1 = f) a)) = objs.
Proof.
  induction a as [|[g os] a IH]; intros Hnd Hin.
  - by apply elem_of_nil in Hin.
  - cbn [map fst] in Hnd. apply NoDup_cons in Hnd as [Hg Hnd].
    rewrite filter_cons. cbn [fst].
    destruct (decide (g = f)) as [-> | Hne].
    + assert (objs = os) as ->.
      { apply elem_of_cons in Hin as [[= ->] | Hin]; [done|].
        destruct Hg. apply elem_of_map. by exists (f, objs). }
      rewrite filter_none.
      * cbn. by rewrite app_nil_r.
      * intros [h os'] Hh Heq. cbn [fst] in Heq. subst h.
        apply Hg, elem_of_map. by exists (f, os').
    + apply IH; [done|].
      apply elem_of_cons in Hin as [[= -> ->] | Hin]; done.
Qed.

(** The folder store reflects its own view faithfully. *)
Lemma folder_store_faithful (bucket folder_prefix : string) :
  faithful bucket folder_prefix
    (λ (st a : archive_view), st = a ∧ NoDup (map fst a)).
Proof.
  split; [|split].
  - intros st a [-> Hnd]. by eexists _, _.
  - intros st a f objs [-> Hnd] Hin. eexists _, _.
    split; [reflexivity|]. split; [|done].
    cbn [Contents]. by rewrite (folder_contents a f objs).
  - intros st a f [-> Hnd] Hf. eexists. split; [reflexivity|].
    split; [done|]. by apply remove_folder_nodup.
Qed.

(** A frozen store with more sub-folders than the limit never drops to it. *)
Lemma frozen_never_drops (bucket folder_prefix : string) (limit : Z)
    (a : archive_view) :
  limit < Z.of_nat (length a) → a ≠ [] → NoDup (map fst a) →
  Forall (λ fo, fo.2 ≠ []) a →
  never_drops bucket folder_prefix limit
    (λ s, frozen_view s = a) (λ f, f ∈ map fst a).
Proof.
  intros Hlen Ha Hnd Hne. split; [|split].
  - intros [v] Hv. cbn in Hv. subst v.
    eexists _, _, (map fst a). split; [reflexivity|].
    split; [by destruct a|]. split; [by rewrite length_map|].
    split; [by apply Forall_forall|done].
  - intros [v] f Hv Hf. cbn in Hv. subst v.
    apply elem_of_map in Hf as ([g objs] & -> & Hin).
    rewrite Forall_forall in Hne. pose proof (Hne _ Hin) as Hobjs.
    cbn [snd fst] in *. destruct objs as [|o os]; [done|].
    eexists _, _, o, os. split; [reflexivity|]. split; [|done].
    cbn. by rewrite (folder_contents a g (o :: os)).
  - intros s f Hs _. by exists s.
Qed.

(** With a payload object in every sub-folder, the object store lists every
    sub-folder. *)
Lemma occupied_all (keys : list string) (a : archive_view) :
  keeps_payload keys a → occupied a = a.
Proof.
  unfold keeps_payload, occupied. induction 1 as [|fo a Hfo Ha IH]; [done|].
  rewrite filter_cons, IH. destruct (decide _) as [|Hn]; [done|].
  destruct Hn. destruct Hfo; cbn; lia.
Qed.

Lemma delete_key_keys (key : string) (a : archive_view) :
  map fst (delete_key key a) = map fst a.
Proof. unfold delete_key. rewrite map_map. by apply map_ext. Qed.

(** Deleting the key of a sub-folder leaves every payload object. *)
Lemma delete_key_keeps_payload (keys : list string) (key : string)
    (a : archive_view) :
  key ∈ keys → keeps_payload keys a → keeps_payload keys (delete_key key a).
Proof.
  intros Hkey. unfold keeps_payload, delete_key. rewrite !Forall_forall.
  intros Ha fo' Hin. apply elem_of_map in Hin as (fo & -> & Hin).
  cbn [snd]. specialize (Ha fo Hin). rewrite Exists_exists in Ha |- *.
  destruct Ha as (o & Ho & Hpay). exists o. split; [|done].
  apply list_elem_of_filter. split; [|done]. intros Heq. apply Hpay.
  by rewrite Heq.
Qed.

(** An object store with more sub-folders than the limit, each holding a
    payload object next to its marker, never drops to the limit: the loop
    deletes the marker, and the sub-folder stays listed. *)
Lemma object_store_never_drops (bucket folder_prefix : string) (limit : Z)
    (keys : list string) :
  limit < Z.of_nat (length keys) → keys ≠ [] →
  never_drops bucket folder_prefix limit
    (λ s, map fst (folders s) = keys ∧ keeps_payload keys (folders s))
    (λ f, f ∈ keys).
Proof.
  intros Hlen Hne. split; [|split].
  - intros [fs] [Hk Hp]. cbn [folders] in *.
    eexists _, _, keys. split; [reflexivity|].
    cbn [list_objects_v2 folder_store fst CommonPrefixes folders].
    rewrite (occupied_all keys fs Hp), Hk.
    split; [by destruct keys|]. split; [done|].
    split; [by apply Forall_forall|done].
  - intros [fs] f [Hk Hp] Hf. cbn [folders] in *.
    rewrite <- Hk in Hf. apply elem_of_map in Hf as ([g objs] & -> & Hin).
    cbn [fst].
    assert (∃ o, o ∈ mjoin (map snd (filter (λ fo : string * list s3_object,
                                               fo.1 = g) fs))) as [o Ho].
    { unfold keeps_payload in Hp. rewrite Forall_forall in Hp.
      pose proof (Hp _ Hin) as Hex. cbn [snd] in Hex.
      apply Exists_exists in Hex as (o & Ho & _). exists o.
      apply list_elem_of_join. exists objs. split; [done|].
      apply elem_of_map. exists (g, objs). split; [done|].
      by apply list_elem_of_filter. }
    destruct (mjoin _) as [|o' os] eqn:Hj; [by apply elem_of_nil in Ho|].
    eexists _, _, o', os. split; [reflexivity|].
    cbn [list_objects_v2 folder_store fst Contents folders].
    rewrite (occupied_all keys fs Hp). by rewrite Hj.
  - intros [fs] f [Hk Hp] Hf. cbn [folders] in *. eexists.
    split; [reflexivity|]. cbn [folders]. split.
    + by rewrite delete_key_keys.
    + by apply delete_key_keeps_payload.
Qed.




(** C8.  The loop has a fixed ceiling of 150 turns: in a store where the
    listing under the prefix always shows more sub-folders than the limit
    (each of them listing at least one object, the deletion of a listed
    sub-folder's key being accepted), a rotation call performs 150
    deletions, then raises the stuck-loop error, and deletes nothing after
    that.  The object store, where deleting a sub-folder's key leaves the
    files under it, is such a store. *)
Theorem rotation_stuck_raises_at_bound {St : Type} `{!S3Client St}
    (bucket project_folder archive_folder : string) (limit : Z)
    (inv : St → Prop) (is_folder : string → Prop) (st : St) :
  0 ≤ limit →
  never_drops bucket (project_folder +:+ archive_folder) limit inv is_folder →
  inv st →
  ∃ w',
    rotate bucket project_folder archive_folder limit st
    = (Raise StuckInWhileLoop, w')
    ∧ Z.of_nat (length (deleted w')) = max_iterations.
Proof.
  intros Hlimit Hstuck Hinv.
  destruct (rotate_stuck bucket project_folder archive_folder limit
              inv is_folder Hlimit Hstuck st Hinv) as (w' & Hrun & Hlen).
  exists w'. split; [done|]. rewrite Hlen. reflexivity.
Qed.

Lemma rotation_stuck_raises_at_bound_witness :
  1 < Z.of_nat (length (snapshots 2))
  ∧ ∃ w',
      rotate "bucket" "p/" "a/" 1 {| folders := snapshots 2 |}
      = (Raise StuckInWhileLoop, w')
      ∧ Z.of_nat (length (deleted w')) = max_iterations.
Proof.
  split; [cbn; lia|].
  apply (rotation_stuck_raises_at_bound "bucket" "p/" "a/" 1
           (λ s, map fst (folders s) = map fst (snapshots 2)
                 ∧ keeps_payload (map fst (snapshots 2)) (folders s))
           (λ f, f ∈ map fst (snapshots 2))).
  - lia.
  - apply object_store_never_drops.
    + cbn. lia.
    + discriminate.
  - split; [reflexivity|].
    apply (bool_decide_unpack _). vm_compute. exact I.
Defined.

End Stores.

(** * Further properties of the code *)

(** ** More on the query compiler *)

Section CompilerMore.
Import RdsQueryUtils Spec QueryText SelectList.

(** X1.  [unpack_query] raises exactly when it is handed a package that
    lacks a component: the missing source is reported first, the missing
    join list only when the source is there.  No package at all is not an
    error. *)
Theorem unpack_query_raises_iff (p : option query_package) (e : unpack_error) :
  unpack_query p = Raise e ↔
  ∃ pkg, p = Some pkg
         ∧ ((pkg_source pkg = None ∧ e = NoSourceComponent)
            ∨ (pkg_source pkg ≠ None ∧ pkg_join_list pkg = None
               ∧ e = NoJoinListComponent)).
Proof.
  split.
  - destruct p as [[[src|] [jl|]]|]; cbn; intros [= <-] || discriminate;
      eexists; (split; [reflexivity|]); cbn; auto.
  - intros (pkg & -> & [[Hs ->] | (Hs & Hj & ->)]); cbn.
    + by rewrite Hs.
    + destruct (pkg_source pkg); [|done]. by rewrite Hj.
Qed.

(** X2.  With an exclusion list the schema holds exactly the fields of the
    unfiltered schema that the list does not name, in the same order. *)
Theorem build_schema_exclude (src : option source)
    (jl : option (list join_item)) (sch : option (list string))
    (ex : list string) :
  (∀ f, f ∈ build_schema src jl sch (Some ex)
        ↔ f ∈ build_schema src jl sch None ∧ f ∉ ex)
  ∧ build_schema src jl sch (Some ex) `sublist_of` build_schema src jl sch None.
Proof.
  assert (build_schema src jl sch (Some ex)
          = filter (λ f, f ∉ ex) (build_schema src jl sch None)) as ->
    by reflexivity.
  split.
  - intros f. rewrite list_elem_of_filter. tauto.
  - apply sublist_filter.
Qed.

(** X3.  A join item whose cardinality is neither [SINGLE] nor [REPEATING]
    adds no join clause at all: the text assembled when the loop reaches the
    next position is the text it had on reaching the item. *)
Theorem unknown_cardinality_adds_no_join (src : source) (jl : list join_item)
    (i : nat) (item : join_item) :
  jl !! i = Some item →
  item_single_or_repeat item ≠ "SINGLE" →
  item_single_or_repeat item ≠ "REPEATING" →
  text_before_join src jl (Datatypes.S i) = text_before_join src jl i.
Proof.
  intros Hi Hs Hr. unfold text_before_join.
  rewrite (take_S_r jl i item Hi), for_enumerate_app.
  assert (length (take i jl) = i) as Hlen.
  { apply length_take_le. apply lookup_lt_Some in Hi. lia. }
  assert (∃ q0, query_upto_joins src jl = (q0, Z.max 1 (Z.of_nat 0)))
    as [q0 ->] by (eexists; reflexivity).
  destruct (add_joins_spec (take i jl) 0 q0) as [t ->].
  cbn [for_enumerate fst]. rewrite add_join_spec. cbn [fst].
  unfold join_clause.
  apply String.eqb_neq in Hs, Hr. rewrite Hs, Hr.
  by rewrite append_nil_r.
Qed.

End CompilerMore.
Section SelectListFacts.
Import RdsQueryUtils Spec QueryText SelectList.

Lemma render_all_cons (l : select_line) (ls : list select_line) :
  render_all (l :: ls) = render l +:+ render_all ls.
Proof. reflexivity. Qed.

Lemma render_all_app (l1 l2 : list select_line) :
  render_all (l1 ++ l2) = render_all l1 +:+ render_all l2.
Proof.
  induction l1 as [|l l1 IH]; [done|].
  cbn [app]. by rewrite !render_all_cons, IH, append_assoc.
Qed.

Lemma source_dict_lines (alias : string) (field : dict) (query : string) :
  for_each (λ query (kv : string * string),
      query +:+ "    " +:+ alias +:+ "." +:+ kv.1 +:+ " AS "
        +:+ kv.2 +:+ "," +:+ nl) field query
  = query +:+ render_all
      (map (λ kv : string * string,
              {| sl_alias := alias; sl_column := kv.1; sl_name := kv.2;
                 sl_comma := true |}) field).
Proof.
  unfold for_each. revert query.
  induction field as [|kv field IH]; intros query.
  - cbn. by rewrite append_nil_r.
  - cbn [fold_left map]. rewrite IH, render_all_cons.
    unfold render. cbn [sl_alias sl_column sl_name sl_comma].
    by rewrite !append_assoc.
Qed.

Lemma add_source_fields_lines (src : source) (query : string) :
  add_source_fields src query = query +:+ render_all (source_lines src).
Proof.
  unfold add_source_fields, source_lines, for_each at 1.
  generalize (src_fields src). intros fields. revert query.
  induction fields as [|field fields IH]; intros query.
  - cbn. by rewrite append_nil_r.
  - cbn [fold_left concat]. rewrite IH, source_dict_lines.
    by rewrite map_app, render_all_app, append_assoc.
Qed.

Lemma join_dict_lines (alias : string) (drop : bool) (field : dict)
    (query : string) :
  for_each (λ query (kv : string * string),
      if drop
      then query +:+ "    " +:+ alias +:+ "." +:+ kv.1 +:+ " AS "
             +:+ kv.2 +:+ nl
      else query +:+ "    " +:+ alias +:+ "." +:+ kv.1 +:+ " AS "
             +:+ kv.2 +:+ "," +:+ nl) field query
  = query +:+ render_all
      (map (λ kv : string * string,
              {| sl_alias := alias; sl_column := kv.1; sl_name := kv.2;
                 sl_comma := negb drop |}) field).
Proof.
  unfold for_each. revert query.
  induction field as [|kv field IH]; intros query.
  - cbn. by rewrite append_nil_r.
  - cbn [fold_left map]. rewrite IH, render_all_cons.
    unfold render. cbn [sl_alias sl_column sl_name sl_comma].
    destruct drop; cbn [negb]; by rewrite !append_assoc.
Qed.

Lemma item_fields_lines (is_last : bool) (item : join_item) (query : string) :
  for_each (λ query field,
      for_each (λ query (kv : string * string),
        if is_last
           && match last (item_fields item) with
              | Some final => dict_eqb field final
              | None => false
              end
        then query +:+ "    " +:+ item_name item +:+ "." +:+ kv.1 +:+ " AS "
               +:+ kv.2 +:+ nl
        else query +:+ "    " +:+ item_name item +:+ "." +:+ kv.1 +:+ " AS "
               +:+ kv.2 +:+ "," +:+ nl) field query)
    (item_fields item) query
  = query +:+ render_all (item_lines is_last item).
Proof.
  unfold item_lines, equals_last, for_each at 1.
  generalize (last (item_fields item)). intros final.
  generalize (item_fields item). intros fields. revert query.
  induction fields as [|field fields IH]; intros query.
  - cbn. by rewrite append_nil_r.
  - cbn [fold_left map concat]. rewrite IH, join_dict_lines.
    by rewrite render_all_app, append_assoc.
Qed.

Lemma join_fields_lines (total : nat) (l : list join_item) (index : nat)
    (query : string) :
  for_enumerate (λ query index item,
      for_each (λ query field,
        for_each (λ query (kv : string * string),
          if (Z.of_nat index =? Z.of_nat total - 1)
             && match last (item_fields item) with
                | Some final => dict_eqb field final
                | None => false
                end
          then query +:+ "    " +:+ item_name item +:+ "." +:+ kv.1 +:+ " AS "
                 +:+ kv.2 +:+ nl
          else query +:+ "    " +:+ item_name item +:+ "." +:+ kv.1 +:+ " AS "
                 +:+ kv.2 +:+ "," +:+ nl) field query)
        (item_fields item) query)
    index l query
  = query +:+ render_all (join_lines_from total index l).
Proof.
  revert index query. induction l as [|item l IH]; intros index query.
  - cbn. by rewrite append_nil_r.
  - cbn [for_enumerate join_lines_from]. rewrite IH, item_fields_lines.
    by rewrite render_all_app, append_assoc.
Qed.

Lemma query_upto_joins_lines (src : source) (jl : list join_item) :
  query_upto_joins src jl
  = ("SELECT" +:+ nl +:+ render_all (select_lines src jl) +:+ nl +:+ "FROM"
       +:+ nl +:+ "    " +:+ src_table src +:+ " " +:+ src_name src +:+ nl,
     1).
Proof.
  unfold query_upto_joins, add_join_fields, select_lines.
  rewrite join_fields_lines, add_source_fields_lines, render_all_app.
  by rewrite !append_assoc.
Qed.

Lemma source_lines_names (src : source) :
  map sl_name (source_lines src) = output_names (src_fields src).
Proof. unfold source_lines, output_names. rewrite map_map. done. Qed.

Lemma item_lines_names (is_last : bool) (item : join_item) :
  map sl_name (item_lines is_last item) = output_names (item_fields item).
Proof.
  unfold item_lines, output_names.
  generalize (equals_last (item_fields item)). intros c.
  induction (item_fields item) as [|field fields IH]; [done|].
  cbn [map concat]. rewrite !map_app, IH. f_equal. by rewrite map_map.
Qed.

Lemma join_lines_names (total index : nat) (l : list join_item) :
  map sl_name (join_lines_from total index l)
  = concat (map (λ item, output_names (item_fields item)) l).
Proof.
  revert index. induction l as [|item l IH]; intros index; [done|].
  cbn [join_lines_from map concat]. by rewrite map_app, item_lines_names, IH.
Qed.

(** X4.  The compiled text opens with [SELECT], one line
    [alias.column AS name] per declared field, then the [FROM] clause with the
    source table and alias; the names of these lines, in order, are the
    schema list [build_schema] computes from the same descriptors. *)
Theorem select_list_matches_schema (src : source) (jl : list join_item) :
  (∃ rest,
     query_text src jl
     = "SELECT" +:+ nl +:+ render_all (select_lines src jl) +:+ nl +:+ "FROM"
         +:+ nl +:+ "    " +:+ src_table src +:+ " " +:+ src_name src +:+ nl
         +:+ rest)
  ∧ map sl_name (select_lines src jl)
    = build_schema (Some src) (Some jl) None None.
Proof.
  split.
  - unfold query_text. rewrite query_upto_joins_lines.
    destruct (add_joins_spec jl 0
                ("SELECT" +:+ nl +:+ render_all (select_lines src jl) +:+ nl
                   +:+ "FROM" +:+ nl +:+ "    " +:+ src_table src +:+ " "
                   +:+ src_name src +:+ nl)) as [text Htext].
    change (Z.max 1 (Z.of_nat 0)) with 1 in Htext. rewrite Htext.
    eexists. rewrite !append_assoc. reflexivity.
  - unfold select_lines.
    rewrite map_app, source_lines_names, join_lines_names.
    unfold build_schema.
    by rewrite append_join_names, append_all_names.
Qed.

End SelectListFacts.

Section SelectListEdges.
Import RdsQueryUtils Spec QueryText SelectList.

(** X5.  With an empty join list the whole text is the source's select
    lines, each one still followed by its comma, then the [FROM], [WHERE] and
    [ORDER BY] clauses on the source alias. *)
Theorem empty_join_list_query (src : source) :
  query_text src []
  = "SELECT" +:+ nl +:+ render_all (source_lines src) +:+ nl +:+ "FROM" +:+ nl
      +:+ "    " +:+ src_table src +:+ " " +:+ src_name src +:+ nl
      +:+ nl +:+ " WHERE " +:+ nl +:+ "    " +:+ src_name src
      +:+ ".project_id = " +:+ pretty (src_project src)
      +:+ nl +:+ " ORDER BY" +:+ nl +:+ src_name src +:+ "."
      +:+ src_order src +:+ ";"
  ∧ Forall (λ l, sl_comma l = true) (source_lines src).
Proof.
  split.
  - unfold query_text. rewrite query_upto_joins_lines.
    unfold select_lines. cbn [for_enumerate length join_lines_from].
    rewrite app_nil_r. by rewrite !append_assoc.
  - unfold source_lines. apply Forall_forall.
    intros l (kv & -> & _)%elem_of_map. done.
Qed.

Lemma dict_lookup_first (d : dict) (k v : string) :
  NoDup (map fst d) → (k, v) ∈ d → dict_lookup k d = Some v.
Proof.
  unfold dict_lookup.
  induction d as [|[k' v'] d IH]; intros Hnd Hin.
  - by apply elem_of_nil in Hin.
  - cbn [map fst] in Hnd. apply NoDup_cons in Hnd as [Hk Hnd].
    cbn [find fst]. destruct (String.eqb_spec k' k) as [-> | Hne].
    + apply elem_of_cons in Hin as [[= ->] | Hin]; [done|].
      destruct Hk. apply elem_of_map. by exists (k, v).
    + apply elem_of_cons in Hin as [[= -> ->] | Hin]; [done|]. by apply IH.
Qed.

(** A dictionary equals itself. *)
Lemma dict_eqb_refl (d : dict) : NoDup (map fst d) → dict_eqb d d = true.
Proof.
  intros Hnd. unfold dict_eqb. rewrite Nat.eqb_refl. cbn [andb].
  apply forallb_forall. intros [k v] Hin.
  apply bool_decide_eq_true. cbn [fst snd].
  apply dict_lookup_first; [done|]. by apply list_elem_of_In.
Qed.

Lemma join_lines_from_app (total index : nat) (l1 l2 : list join_item) :
  join_lines_from total index (l1 ++ l2)
  = join_lines_from total index l1
      ++ join_lines_from total (index + length l1) l2.
Proof.
  revert index. induction l1 as [|item l1 IH]; intros index.
  - cbn. by rewrite Nat.add_0_r.
  - cbn [app join_lines_from length]. rewrite IH, <- app_assoc.
    by replace (Datatypes.S index + length l1)%nat
      with (index + Datatypes.S (length l1))%nat by lia.
Qed.

(** X6.  When the last join item's [fields] end with a non-empty dictionary
    (distinct keys), the last line of the select list is the last entry of
    that dictionary, written without a comma. *)
Theorem select_list_ends_without_comma (src : source)
    (jl : list join_item) (item : join_item) (fields : list dict)
    (d : dict) (kv : string * string) :
  item_fields item = fields ++ [d ++ [kv]] →
  NoDup (map fst (d ++ [kv])) →
  last (select_lines src (jl ++ [item]))
  = Some {| sl_alias := item_name item; sl_column := kv.1; sl_name := kv.2;
            sl_comma := false |}.
Proof.
  intros Hfields Hnd. unfold select_lines.
  rewrite join_lines_from_app. cbn [join_lines_from].
  rewrite app_nil_r, !app_assoc, length_app. cbn [length].
  replace (Z.of_nat (0 + length jl) =? Z.of_nat (length jl + 1) - 1)
    with true by (symmetry; apply Z.eqb_eq; lia).
  unfold item_lines, equals_last. rewrite Hfields, last_snoc.
  rewrite map_app, concat_app. cbn [map concat].
  rewrite app_nil_r, map_app, !app_assoc. cbn [map].
  rewrite last_snoc. rewrite dict_eqb_refl by done. done.
Qed.

End SelectListEdges.

Section DecoderMore.
Import RdsQueryUtils Codecs Latin1.

Lemma plain_app (a b : string) : plain (a +:+ b) = plain a && plain b.
Proof.
  induction a as [|x a IH]; [done|].
  change (String x a +:+ b) with (String x (a +:+ b)).
  cbn [plain]. rewrite IH. by rewrite !andb_assoc.
Qed.

(** On a plain prefix the decoder copies and goes on. *)
Lemma run_plain_prefix (s rest : string) :
  plain s = true →
  run Plain (s +:+ rest) = (let* r := run Plain rest in Ok (s +:+ r)).
Proof.
  induction s as [|a s IH]; intros Hp.
  - change ("" +:+ rest) with rest. unfold bind.
    destruct (run Plain rest); reflexivity.
  - simpl in Hp. apply andb_prop in Hp as [Hp Hs].
    apply andb_prop in Hp as [Hlt Hbs]. apply negb_true_iff in Hbs.
    change (String a s +:+ rest) with (String a (s +:+ rest)).
    cbn [run step]. unfold plain_step. rewrite Hbs.
    unfold utf8. rewrite Hlt. unfold byte. rewrite ascii_N_embedding.
    cbn [bind fst snd]. rewrite (IH Hs). unfold bind.
    destruct (run Plain rest); reflexivity.
Qed.

(** X7.  The decoding that closes [build_query] reads backslash escapes:
    between texts of plain ASCII a backslash followed by [n] comes back as a
    line feed, and a backslash closing the text is refused. *)
Theorem unicode_escape_interprets_backslash (s1 s2 : string) :
  plain s1 = true → plain s2 = true →
  unicode_escape (s1 +:+ "\n" +:+ s2) = Ok (s1 +:+ nl +:+ s2)
  ∧ unicode_escape (s1 +:+ "\") = Raise BackslashAtEnd.
Proof.
  intros H1 H2. unfold unicode_escape. split.
  - rewrite (run_plain_prefix _ _ H1).
    change (run Plain ("\n" +:+ s2))
      with (bind (bind (run Plain s2) (λ rest, Ok (utf8 10 +:+ rest)))
              (λ rest, Ok ("" +:+ rest))).
    change (run Plain s2) with (unicode_escape s2).
    by rewrite (unicode_escape_plain _ H2).
  - by rewrite (run_plain_prefix _ _ H1).
Qed.








End DecoderMore.

Section PlainQueries.
Import Codecs RdsQueryUtils Spec QueryText SelectList.

Lemma plain_pretty_N_go (x : N) (s : string) :
  plain s = true → plain (pretty_N_go x s) = true.
Proof.
  revert s. induction (N.lt_wf_0 x) as [x _ IH]; intros s Hs.
  destruct (decide (x = 0)%N) as [-> | Hx]; [by rewrite pretty_N_go_0|].
  rewrite pretty_N_go_step by lia. apply IH.
  - apply N.div_lt; lia.
  - cbn [plain]. rewrite Hs, andb_true_r.
    unfold pretty_N_char. by repeat case_match.
Qed.

Lemma plain_pretty_Z (z : Z) : plain (pretty z) = true.
Proof.
  assert (∀ p : positive, plain (pretty p) = true) as Hpos.
  { intros p. unfold pretty, pretty_positive, pretty, pretty_N.
    case_decide; [done|]. by apply plain_pretty_N_go. }
  destruct z as [|p|p]; [done|apply Hpos|].
  change (pretty (Z.neg p)) with ("-" +:+ pretty p).
  by rewrite plain_app, Hpos.
Qed.

Lemma plain_render_all (ls : list select_line) :
  Forall (λ l, plain (sl_alias l) = true ∧ plain (sl_column l) = true
               ∧ plain (sl_name l) = true) ls →
  plain (render_all ls) = true.
Proof.
  induction 1 as [|l ls (Ha & Hc & Hn) _ IH]; [done|].
  rewrite render_all_cons, plain_app, IH, andb_true_r.
  unfold render. rewrite !plain_app, Ha, Hc, Hn.
  by destruct (sl_comma l).
Qed.

Lemma elem_of_concat {A : Type} (x : A) (ls : list (list A)) :
  x ∈ concat ls ↔ ∃ l, x ∈ l ∧ l ∈ ls.
Proof.
  rewrite list_elem_of_In, in_concat. split.
  - intros (l & Hl & Hx). exists l. by rewrite !list_elem_of_In.
  - intros (l & Hx & Hl). exists l. by rewrite <- !list_elem_of_In.
Qed.

Lemma plain_fields_lines (alias : string) (fields : list dict)
    (comma : dict → bool) :
  plain alias = true → plain_fields fields = true →
  Forall (λ l, plain (sl_alias l) = true ∧ plain (sl_column l) = true
               ∧ plain (sl_name l) = true)
    (concat (map (λ field : dict,
                    map (λ kv : string * string,
                           {| sl_alias := alias; sl_column := kv.1;
                              sl_name := kv.2; sl_comma := comma field |})
                      field) fields)).
Proof.
  intros Ha Hf. unfold plain_fields in Hf. rewrite forallb_forall in Hf.
  apply Forall_forall. intros l Hl.
  apply elem_of_concat in Hl as (ls & Hl & Hls).
  apply elem_of_map in Hls as (field & -> & Hfield).
  apply elem_of_map in Hl as (kv & -> & Hkv).
  apply list_elem_of_In in Hfield. specialize (Hf _ Hfield).
  rewrite forallb_forall in Hf. apply list_elem_of_In in Hkv.
  specialize (Hf _ Hkv). apply andb_prop in Hf as [H1 H2]. done.
Qed.

Lemma plain_select_lines (src : source) (jl : list join_item) :
  plain_source src = true → forallb plain_item jl = true →
  plain (render_all (select_lines src jl)) = true.
Proof.
  intros Hs Hj. unfold plain_source in Hs.
  apply andb_prop in Hs as [Hs _]. apply andb_prop in Hs as [Hs Hsf].
  apply andb_prop in Hs as [_ Hsn].
  unfold select_lines. rewrite render_all_app, plain_app.
  apply andb_true_intro. split.
  - apply plain_render_all. unfold source_lines. rewrite concat_map.
    by apply (plain_fields_lines (src_name src) (src_fields src) (λ _, true)).
  - generalize (length jl). intros total. generalize 0%nat. intros index.
    revert index. induction jl as [|item jl IH]; intros index; [done|].
    cbn [forallb] in Hj. apply andb_prop in Hj as [Hi Hj].
    cbn [join_lines_from]. rewrite render_all_app, plain_app, (IH Hj).
    rewrite andb_true_r. apply plain_render_all.
    unfold plain_item in Hi. apply andb_prop in Hi as [Hi Hif].
    apply andb_prop in Hi as [Hin _].
    by apply plain_fields_lines.
Qed.

Lemma plain_joins (l : list join_item) (index : nat) (query : string)
    (join_count : Z) :
  plain query = true → forallb plain_item l = true →
  plain (for_enumerate add_join index l (query, join_count)).1 = true.
Proof.
  revert index query join_count.
  induction l as [|item l IH]; intros index query join_count Hq Hl; [done|].
  cbn [forallb] in Hl. apply andb_prop in Hl as [Hi Hl].
  cbn [for_enumerate]. rewrite add_join_spec. apply IH; [|done].
  rewrite plain_app, Hq. cbn [andb].
  unfold plain_item in Hi. apply andb_prop in Hi as [Hi _].
  apply andb_prop in Hi as [Hn Hd].
  assert (plain (data_conn_at join_count index) = true) as Hc.
  { unfold data_conn_at. destruct (index =? 0)%nat; [done|].
    by rewrite plain_app, plain_pretty_Z. }
  unfold join_clause, typed_join.
  destruct (String.eqb (item_single_or_repeat item) "SINGLE");
    [|destruct (String.eqb (item_single_or_repeat item) "REPEATING")];
    rewrite ?plain_app, ?Hc, ?Hn, ?Hd, ?plain_pretty_Z; reflexivity.
Qed.

(** X9.  When every text of the source and of the join items is ASCII
    without a backslash, the assembled query is too, the decoding leaves it
    unchanged, and [build_query] returns it without raising. *)
Theorem build_query_on_plain_descriptors (src : source)
    (jl : list join_item) :
  plain_source src = true → forallb plain_item jl = true →
  plain (query_text src jl) = true
  ∧ build_query (Some src) (Some jl) None = Ok (Some (query_text src jl)).
Proof.
  intros Hs Hj.
  assert (plain (query_text src jl) = true) as Hp.
  { pose proof (plain_select_lines src jl Hs Hj) as Hsel.
    unfold plain_source in Hs.
    apply andb_prop in Hs as [Hs Ho]. apply andb_prop in Hs as [Hs _].
    apply andb_prop in Hs as [Ht Hn].
    unfold query_text. rewrite query_upto_joins_lines.
    pose proof (plain_joins jl 0
                  ("SELECT" +:+ nl +:+ render_all (select_lines src jl)
                     +:+ nl +:+ "FROM" +:+ nl +:+ "    " +:+ src_table src
                     +:+ " " +:+ src_name src +:+ nl) 1) as Hjoins.
    destruct (for_enumerate add_join 0 jl _) as [query c].
    cbn [fst] in Hjoins.
    rewrite !plain_app, Hjoins, Hn, Ho, plain_pretty_Z; [reflexivity| |done].
    by rewrite !plain_app, Hsel, Ht, Hn. }
  split; [done|]. unfold build_query.
  by rewrite (unicode_escape_plain _ Hp).
Qed.

End PlainQueries.

Section PackageMore.
Import RdsQueryUtils Spec QueryText QueryPackage.

(** X10.  A package made by [build_query_package] always unpacks, and in
    the query compiled from it every [SINGLE] item is joined on the alias its
    source declares. *)
Theorem packaged_single_join_on_declared_alias (project_val : Z)
    (questions : list join_item) (i : nat) (item : join_item) :
  questions !! i = Some item →
  item_single_or_repeat item = "SINGLE" →
  ∃ src,
    unpack_query (Some (build_query_package project_val questions))
    = Ok (Some src, Some questions)
    ∧ ∃ post,
        query_text src questions
        = text_before_join src questions i
            +:+ nl +:+ "LEFT JOIN application_data_answer " +:+ bridge_alias i
            +:+ " ON " +:+ src_name src +:+ ".id = " +:+ bridge_alias i
            +:+ ".application_id AND " +:+ bridge_alias i
            +:+ ".question_id = " +:+ pretty (item_question_id item) +:+ post.
Proof.
  intros Hi Hs. eexists. split; [reflexivity|].
  destruct (single_join_on_app
              {| src_table := "applications_application"; src_name := "app";
                 src_fields := [[("application_number", "application_number");
                                 ("created_at", "created_at")]];
                 src_project := project_val; src_order := "id" |}
              questions i item Hi Hs) as [post Hq].
  exists post. exact Hq.
Qed.

(** X11.  [set_project] returns an identifier exactly for the two names of
    its dictionary, [Helene] with 34 and [Mitlon] with 37; every other name
    raises. *)
Theorem set_project_ok_iff (sel_project : string) (project_id : Z) :
  set_project sel_project = Ok project_id ↔
  (sel_project = "Helene" ∧ project_id = 34)
  ∨ (sel_project = "Mitlon" ∧ project_id = 37).
Proof.
  unfold set_project, project_dictionary. cbn [find fst snd].
  destruct (String.eqb_spec "Helene" sel_project) as [<- | H1].
  { split; [intros [= <-]; by left|].
    intros [[_ ->] | [[=] _]]. done. }
  destruct (String.eqb_spec "Mitlon" sel_project) as [<- | H2].
  { split; [intros [= <-]; by right|].
    intros [[[=] _] | [_ ->]]. done. }
  split; [discriminate|]. intros [[-> _] | [-> _]]; done.
Qed.

End PackageMore.

Section ProcessorMore.
Import Pandas RdsProcessor.

Lemma imap_fst_seq {A B : Type} (g : nat → A → B) (l : list A) (n : nat) :
  map fst (imap (λ i x, ((n + i)%nat, g i x)) l) = seq n (length l).
Proof.
  revert n g. induction l as [|x l IH]; intros n g; [done|].
  cbn [imap map length seq fst]. rewrite Nat.add_0_r. f_equal.
  rewrite <- (IH (Datatypes.S n) (λ i, g (Datatypes.S i))).
  f_equal. apply imap_ext. intros i y _. cbn. f_equal. lia.
Qed.

Lemma width_bound (data : list (list cell)) (r : list cell) :
  r ∈ data → (length r ≤ foldr (λ r w, Nat.max (length r) w) 0 data)%nat.
Proof.
  induction data as [|r' data IH]; intros Hin.
  - by apply elem_of_nil in Hin.
  - cbn [foldr]. apply elem_of_cons in Hin as [-> | Hin]; [lia|].
    specialize (IH Hin). lia.
Qed.

(** X12.  A table [rds_sql_pull] returns carries the cursor's column
    labels, is indexed [0 .. n-1] with one row per row fetched, and has as
    many cells in every row as it has columns.  (Nothing is said of the
    cells' values, which pandas may convert column by column.) *)
Theorem rds_sql_pull_frame (cur : cursor) (q : string) (df : DataFrame) :
  rds_sql_pull cur q = Ok df →
  ∃ cols data,
    cur q = Some (cols, data)
    ∧ columns df = cols
    ∧ map fst (rows df) = seq 0 (length data)
    ∧ Forall (λ r, length r.2 = length cols) (rows df).
Proof.
  unfold rds_sql_pull, from_records. intros H.
  destruct (cur q) as [[cols data]|]; [|done].
  exists cols, data. split; [done|].
  set (width := foldr (λ r w, Nat.max (length r) w) 0%nat data) in *.
  destruct (bool_decide (data = []) || (width =? length cols)%nat) eqn:Hok;
    [|done].
  injection H as <-. cbn [columns rows]. split; [done|].
  split; [apply (imap_fst_seq (λ _ r, pad width r) data 0)|].
  apply Forall_forall. intros [i r'] Hin.
  apply elem_of_lookup_imap in Hin as (j & r & [= -> ->] & Hr).
  cbn [snd]. unfold pad. rewrite length_app, length_replicate.
  apply orb_prop in Hok as [Hnil | Hw].
  - apply bool_decide_eq_true in Hnil. by rewrite Hnil in Hr.
  - apply Nat.eqb_eq in Hw.
    pose proof (width_bound data r) as Hb.
    assert (r ∈ data) as Hrin by (by eapply list_elem_of_lookup_2).
    specialize (Hb Hrin). fold width in Hb. lia.
Qed.

(** X13.  [rds_sql_pull] raises exactly when the cursor raises, or when
    rows were fetched and the longest one does not have as many cells as
    there are column labels. *)
Theorem rds_sql_pull_raises_iff (cur : cursor) (q : string) (e : error) :
  rds_sql_pull cur q = Raise e ↔
  (cur q = None ∧ e = FailedToPullRows CursorRaised)
  ∨ (∃ cols data,
       cur q = Some (cols, data) ∧ data ≠ []
       ∧ foldr (λ r w, Nat.max (length r) w) 0%nat data ≠ length cols
       ∧ e = FailedToPullRows FailedToConvert).
Proof.
  unfold rds_sql_pull, from_records.
  destruct (cur q) as [[cols data]|].
  - destruct (decide (data = [])) as [-> | Hne].
    { cbn. split; [done|]. intros [[? _] | (? & ? & [= <- <-] & ? & _)]; done. }
    rewrite (bool_decide_eq_false_2 _ Hne). cbn [orb].
    destruct (Nat.eqb_spec (foldr (λ r w, Nat.max (length r) w) 0%nat data)
                (length cols)) as [Heq | Hneq].
    + split; [done|].
      intros [[? _] | (? & ? & [= <- <-] & _ & ? & _)]; done.
    + split.
      * intros [= <-]. right. by exists cols, data.
      * intros [[? _] | (? & ? & _ & _ & _ & ->)]; done.
  - split.
    + intros [= <-]. by left.
    + intros [[_ ->] | (? & ? & ? & _)]; done.
Qed.

End ProcessorMore.

Section ValidationMore.
Import Pandas RdsProcessor.

Lemma schema_present_iff (cols sch : list string) :
  forallb (λ f, bool_decide (f ∈ cols)) sch = true
  ↔ ∀ f, f ∈ sch → f ∈ cols.
Proof.
  rewrite forallb_forall. split.
  - intros H f Hf. apply list_elem_of_In in Hf. specialize (H f Hf).
    by apply bool_decide_eq_true in H.
  - intros H f Hf. apply bool_decide_eq_true. apply H.
    by apply list_elem_of_In.
Qed.

Lemma nothing_missing (cols sch : list string) :
  (∀ f, f ∈ sch → f ∈ cols) → filter (λ f, f ∉ cols) sch = [].
Proof. intros H. apply filter_none. intros f Hf Hn. by apply Hn, H. Qed.

(** X14.  On a table with rows and columns [check_schema] returns true
    exactly when every schema field is a column, false exactly when one is
    not, and in both cases appends the absent fields, in schema order, to the
    record it already holds: the record is never reset. *)
Theorem check_schema_verdict (self : RDS) (data : DataFrame) :
  empty data = false →
  ∃ check,
    check_schema self data
    = (Ok check,
       set_fields_missing self
         (fields_missing self
            ++ filter (λ f, f ∉ columns data) (schema self)))
    ∧ (check = true ↔ ∀ f, f ∈ schema self → f ∈ columns data)
    ∧ (check = false ↔ ∃ f, f ∈ schema self ∧ f ∉ columns data).
Proof.
  intros He. rewrite (check_schema_spec _ _ He). eexists. split; [done|].
  split; [apply schema_present_iff|].
  rewrite <- not_true_iff_false, schema_present_iff. split.
  - intros Hn.
    assert (¬ Forall (λ f, f ∈ columns data) (schema self)) as HnF
      by (by rewrite Forall_forall).
    apply not_Forall_Exists in HnF; [|apply _].
    apply Exists_exists in HnF as (f & Hf & Hnf). by exists f.
  - intros (f & Hf & Hnf) Hall. by apply Hnf, Hall.
Qed.

End ValidationMore.

Section DeduplicationMore.
Import Pandas RdsProcessor.

Lemma rds_sql_pull_raises_cause (cur : cursor) (q : string) (e : error) :
  rds_sql_pull cur q = Raise e → ∃ cause, e = FailedToPullRows cause.
Proof.
  unfold rds_sql_pull. destruct (cur q) as [[cols data]|].
  - destruct (from_records data cols); [done|]. intros [= <-]. by eexists.
  - intros [= <-]. by eexists.
Qed.

(** The rows [drop_duplicates] keeps, given the values seen above. *)
Local Abbreviation kept seen rs :=
  (select (map negb (duplicated_from seen rs)) rs).

Lemma kept_cons (seen : list (list cell)) (r : nat * list cell)
    (rs : list (nat * list cell)) :
  kept seen (r :: rs)
  = if bool_decide (r.2 ∈ seen) then kept (seen ++ [r.2]) rs
    else r :: kept (seen ++ [r.2]) rs.
Proof. cbn [duplicated_from map select]. by destruct (bool_decide _). Qed.

Lemma kept_sublist (seen : list (list cell)) (rs : list (nat * list cell)) :
  kept seen rs `sublist_of` rs.
Proof.
  revert seen. induction rs as [|r rs IH]; intros seen; [done|].
  rewrite kept_cons. destruct (bool_decide _).
  - by apply sublist_cons.
  - by apply sublist_skip.
Qed.

Lemma kept_fresh (seen : list (list cell)) (rs : list (nat * list cell)) :
  NoDup (map snd (kept seen rs))
  ∧ ∀ r, r ∈ kept seen rs → r.2 ∉ seen.
Proof.
  revert seen. induction rs as [|r rs IH]; intros seen.
  - split; [constructor|]. intros r Hr. by apply elem_of_nil in Hr.
  - rewrite kept_cons. destruct (IH (seen ++ [r.2])) as [Hnd Hfresh].
    assert (∀ x, x ∈ kept (seen ++ [r.2]) rs → (x.2 ∉ seen) ∧ (x.2 ≠ r.2))
      as Hfresh'.
    { intros x Hx. specialize (Hfresh x Hx).
      rewrite elem_of_app, list_elem_of_singleton in Hfresh. tauto. }
    case_bool_decide as Hin.
    + split; [done|]. intros x Hx. by apply Hfresh'.
    + split.
      * cbn [map]. apply NoDup_cons. split; [|done].
        intros (x & Hx & Hxin)%elem_of_map.
        apply Hfresh' in Hxin as [_ Hne]. by apply Hne.
      * intros x [-> | Hx]%elem_of_cons; [done|]. by apply Hfresh'.
Qed.

Lemma kept_covers (seen : list (list cell)) (rs : list (nat * list cell))
    (r : nat * list cell) :
  r ∈ rs → r.2 ∈ seen ∨ r.2 ∈ map snd (kept seen rs).
Proof.
  revert seen. induction rs as [|x rs IH]; intros seen Hr.
  - by apply elem_of_nil in Hr.
  - rewrite kept_cons. apply elem_of_cons in Hr as [-> | Hr].
    + case_bool_decide as Hin; [by left|].
      right. cbn [map]. apply elem_of_cons. by left.
    + destruct (IH (seen ++ [x.2]) Hr) as [Hs | Hk].
      * apply elem_of_app in Hs as [Hs | ->%list_elem_of_singleton];
          [by left|].
        case_bool_decide as Hin; [by left|].
        right. cbn [map]. apply elem_of_cons. by left.
      * right. case_bool_decide; [done|].
        cbn [map]. apply elem_of_cons. by right.
Qed.

Lemma kept_first (seen : list (list cell)) (rs : list (nat * list cell))
    (i : nat) (r : nat * list cell) :
  rs !! i = Some r → r.2 ∉ seen →
  (∀ j r', (j < i)%nat → rs !! j = Some r' → r'.2 ≠ r.2) →
  r ∈ kept seen rs.
Proof.
  revert seen i. induction rs as [|x rs IH]; intros seen i Hi Hseen Hfirst.
  - done.
  - rewrite kept_cons. destruct i as [|i].
    + injection Hi as ->. rewrite bool_decide_eq_false_2 by done.
      apply elem_of_cons. by left.
    + cbn in Hi.
      assert (r ∈ kept (seen ++ [x.2]) rs) as Hk.
      { apply (IH _ i Hi).
        - rewrite elem_of_app, list_elem_of_singleton.
          intros [? | Heq]; [done|].
          by apply (Hfirst 0%nat x); [lia| |].
        - intros j r' Hj Hr'. apply (Hfirst (Datatypes.S j) r'); [lia|done]. }
      destruct (bool_decide _); [done|]. apply elem_of_cons. by right.
Qed.

Lemma duplicated_from_length (seen : list (list cell))
    (rs : list (nat * list cell)) :
  length (duplicated_from seen rs) = length rs.
Proof.
  revert seen. induction rs as [|r rs IH]; intros seen; [done|].
  cbn. by rewrite IH.
Qed.

Lemma select_none_dropped {A : Type} (mask : list bool) (rs : list A) :
  Forall (λ b, b = false) mask → length mask = length rs →
  select (map negb mask) rs = rs.
Proof.
  intros H. revert rs. induction H as [|b mask -> _ IH]; intros rs Hlen.
  - by destruct rs.
  - destruct rs as [|r rs]; [done|]. cbn. f_equal. apply IH.
    cbn in Hlen. lia.
Qed.

(** X15.  Deduplicating a deduplicated table changes nothing, and the mask
    of repeated rows taken on it selects no row. *)
Theorem drop_duplicates_idempotent (data : DataFrame) :
  drop_duplicates (drop_duplicates data) = drop_duplicates data
  ∧ rows (getitem_mask (drop_duplicates data)
            (duplicated (drop_duplicates data))) = [].
Proof.
  split; [|apply duplicates_taken_after_drop_empty].
  unfold drop_duplicates at 1. unfold getitem_mask at 1.
  destruct (drop_duplicates data) as [cols rs] eqn:Hd. cbn [columns rows].
  f_equal. apply select_none_dropped; [|apply duplicated_from_length].
  assert (rs = rows (drop_duplicates data)) as -> by (by rewrite Hd).
  unfold duplicated. cbn [rows].
  unfold drop_duplicates, getitem_mask, duplicated. cbn [rows].
  by apply duplicated_after_drop.
Qed.

(** What a successful pull went through. *)
Lemma query_to_df_ok_inv (self self' : RDS) (cur : cursor) (d : DataFrame) :
  query_to_df self cur = (Ok d, self') →
  ∃ q pulled,
    query self = Some q
    ∧ rds_sql_pull cur q = Ok pulled
    ∧ empty pulled = false
    ∧ (∀ f, f ∈ schema self → f ∈ columns pulled)
    ∧ d = drop_duplicates pulled
    ∧ self' = {| schema := schema self; query := query self;
                 duplicates := getitem_mask d (duplicated d);
                 archive := Some (getitem_mask d (duplicated d), d);
                 fields_missing := fields_missing self;
                 df := d |}.
Proof.
  unfold query_to_df. intros H.
  destruct (query self) as [q|] eqn:Hq; [|done].
  destruct (rds_sql_pull cur q) as [pulled|] eqn:Hpull; [|done].
  destruct (empty pulled) eqn:He; [done|]. cbn [negb] in H.
  rewrite (check_schema_spec _ _ He) in H.
  destruct (forallb _ (schema self)) eqn:Hall; [|done].
  pose proof (proj1 (schema_present_iff (columns pulled) (schema self))
                Hall) as Hpresent.
  rewrite (nothing_missing _ _ Hpresent), app_nil_r in H.
  injection H as Hd Hself. subst d self'. exists q, pulled.
  do 5 (split; [done|]). cbn. by rewrite Hq.
Qed.

(** X16.  [query_to_df] succeeds exactly when the object holds a query, the
    pull returns a table with rows and columns, and every schema field is a
    column; the result is then the deduplicated pull, stored as [df] and as
    the archive's data, with the missing-field record untouched. *)
Theorem query_to_df_succeeds_iff (self self' : RDS) (cur : cursor)
    (d : DataFrame) :
  query_to_df self cur = (Ok d, self') ↔
  ∃ q pulled,
    query self = Some q
    ∧ rds_sql_pull cur q = Ok pulled
    ∧ empty pulled = false
    ∧ (∀ f, f ∈ schema self → f ∈ columns pulled)
    ∧ d = drop_duplicates pulled
    ∧ self' = {| schema := schema self; query := query self;
                 duplicates := getitem_mask d (duplicated d);
                 archive := Some (getitem_mask d (duplicated d), d);
                 fields_missing := fields_missing self;
                 df := d |}.
Proof.
  split; [apply query_to_df_ok_inv|].
  intros (q & pulled & Hq & Hpull & He & Hall & -> & ->).
  unfold query_to_df. rewrite Hq, Hpull, He. cbn [negb].
  rewrite (check_schema_spec _ _ He).
  rewrite (proj2 (schema_present_iff _ _) Hall).
  rewrite (nothing_missing _ _ Hall), app_nil_r. cbn. by rewrite Hq.
Qed.

(** X17.  The table a successful [query_to_df] returns keeps the rows of the
    pull in their order, holds no two rows with the same values, holds the
    values of every pulled row, and holds each row that no earlier row
    equals. *)
Theorem query_to_df_returns_first_occurrences (self self' : RDS)
    (cur : cursor) (d : DataFrame) :
  query_to_df self cur = (Ok d, self') →
  ∃ q pulled,
    query self = Some q ∧ rds_sql_pull cur q = Ok pulled
    ∧ df self' = d
    ∧ columns d = columns pulled
    ∧ rows d `sublist_of` rows pulled
    ∧ NoDup (map snd (rows d))
    ∧ (∀ r, r ∈ rows pulled → r.2 ∈ map snd (rows d))
    ∧ (∀ i r, rows pulled !! i = Some r →
         (∀ j r', (j < i)%nat → rows pulled !! j = Some r' → r'.2 ≠ r.2) →
         r ∈ rows d).
Proof.
  intros H.
  destruct (query_to_df_ok_inv _ _ _ _ H)
    as (q & pulled & Hq & Hpull & _ & _ & -> & ->).
  exists q, pulled. do 4 (split; [done|]).
  unfold drop_duplicates, getitem_mask, duplicated. cbn [rows].
  split; [apply kept_sublist|]. split; [apply kept_fresh|]. split.
  - intros r Hr. destruct (kept_covers [] (rows pulled) r Hr) as [Hn|]; [|done].
    by apply elem_of_nil in Hn.
  - intros i r Hi Hfirst. apply (kept_first [] (rows pulled) i r Hi); [|done].
    apply not_elem_of_nil.
Qed.

(** X18.  A failed [query_to_df] leaves [df], the duplicates and the archive
    as they were and never raises the empty-table error of [check_schema];
    unless the failure is the schema mismatch the whole object is unchanged,
    and on a mismatch the missing-field record has grown by at least one
    schema field. *)
Theorem query_to_df_failure (self self' : RDS) (cur : cursor) (e : error) :
  query_to_df self cur = (Raise e, self') →
  df self' = df self ∧ duplicates self' = duplicates self
  ∧ archive self' = archive self
  ∧ e ≠ EmptyWhenCheckingSchema
  ∧ (e ≠ SchemaDidNotMatch → self' = self)
  ∧ (e = SchemaDidNotMatch →
     ∃ missing, missing ≠ []
       ∧ fields_missing self' = fields_missing self ++ missing
       ∧ ∀ f, f ∈ missing → f ∈ schema self).
Proof.
  unfold query_to_df. intros H.
  destruct (query self) as [q|] eqn:Hq.
  2:{ injection H as <- <-. by repeat split. }
  destruct (rds_sql_pull cur q) as [pulled|] eqn:Hpull.
  2:{ injection H as <- <-.
      assert (e0 ≠ EmptyWhenCheckingSchema ∧ e0 ≠ SchemaDidNotMatch) as [??].
      { apply rds_sql_pull_raises_cause in Hpull as [c ->]. done. }
      by repeat split. }
  destruct (empty pulled) eqn:He; cbn [negb] in H.
  { injection H as <- <-. by repeat split. }
  rewrite (check_schema_spec _ _ He) in H.
  destruct (forallb _ (schema self)) eqn:Hall; [done|].
  injection H as <- <-. cbn.
  do 4 (split; [done|]). split; [done|]. intros _.
  exists (filter (λ f, f ∉ columns pulled) (schema self)).
  split; [|split; [done|]].
  - intros Hnil. apply not_true_iff_false in Hall. apply Hall.
    apply schema_present_iff. intros f Hf.
    destruct (decide (f ∈ columns pulled)) as [|Hn]; [done|].
    assert (f ∈ filter (λ f, f ∉ columns pulled) (schema self)) as Hin
      by (by apply list_elem_of_filter).
    rewrite Hnil in Hin. by apply elem_of_nil in Hin.
  - by intros f [_ ?]%list_elem_of_filter.
Qed.

End DeduplicationMore.

Section ConstructorMore.
Import Pandas RdsProcessor RdsQueryUtils.

(** X19.  An object built from a query package together with an explicit
    schema has an empty schema: the explicit list is dropped, and validation
    then accepts every table with rows and columns. *)
Theorem explicit_schema_with_package_checks_nothing (cur : cursor)
    (pkg : query_package) (auto : bool) (sch : list string)
    (ex : option (list string)) (q : option string) (self : RDS) :
  init cur (Some pkg) auto (Some sch) ex q = Ok self →
  schema self = []
  ∧ ∀ data, empty data = false → check_schema self data = (Ok true, self).
Proof.
  intros H.
  assert (schema self = []) as Hs.
  { unfold init in H. destruct pkg as [[src|] [jl|]]; cbn in H; try done.
    destruct (build_query (Some src) (Some jl) q) as [query|]; [|done].
    assert (build_schema (Some src) (Some jl) (Some sch) ex = []) as Hb
      by (by destruct ex).
    rewrite Hb in H. destruct auto.
    - destruct (query_to_df _ cur) as [[d|e] self1] eqn:Hq; [|done].
      injection H as <-.
      by destruct (query_to_df_ok_inv _ _ _ _ Hq)
        as (? & ? & _ & _ & _ & _ & _ & ->).
    - by injection H as <-. }
  split; [done|]. intros data He.
  rewrite (check_schema_spec _ _ He), Hs. cbn.
  rewrite app_nil_r. by destruct self.
Qed.

End ConstructorMore.

Section RotationMore.
Import S3BucketUtil.
Context {St : Type} `{!S3Client St}.
Variables (bucket project_folder archive_folder : string) (limit : Z).

Local Abbreviation folder_prefix := (project_folder +:+ archive_folder).

(** X20.  When the first listing shows no sub-folder, or no more than the
    limit, a rotation call returns normally after that single listing and
    deletes nothing. *)
Theorem rotation_within_limit_deletes_nothing (st st1 : St)
    (resp : list_response) :
  list_objects_v2 bucket folder_prefix (Some "/") st = (Some resp, st1) →
  (∀ l, CommonPrefixes resp = Some l → Z.of_nat (length l) ≤ limit) →
  rotate bucket project_folder archive_folder limit st
  = (Ok tt, {| store := st1; deleted := [] |}).
Proof.
  intros Hl Hcount.
  unfold rotate, monitor_and_maintain_archive_limit, mbind.
  rewrite (s3_list_run bucket _ _ {| store := st; deleted := [] |} _ _ Hl).
  destruct (CommonPrefixes resp) as [l|]; [|done].
  cbn [while_loop deleted].
  destruct (Z.gtb_spec (Z.of_nat (length l)) limit); [|done].
  specialize (Hcount l eq_refl). lia.
Qed.

Section Corrupt.
Variable represents : St → archive_view → Prop.
Hypothesis Hfaithful : faithful bucket folder_prefix represents.

Lemma collect_hits_empty (a l1 l2 : archive_view) (f : string)
    (acc : list (string * Z)) (w : world St) :
  represents (store w) a →
  (∀ fo, fo ∈ l1 ++ (f, []) :: l2 → fo ∈ a) →
  Forall (λ fo, fo.2 ≠ []) l1 →
  ∃ w',
    collect_folder_dates bucket (map fst (l1 ++ (f, []) :: l2)) acc w
    = (Raise (ContentsNotFound f), w')
    ∧ deleted w' = deleted w.
Proof.
  intros Hrep Hsub Hne. revert acc w Hrep.
  destruct Hfaithful as (_ & Hcontents & _).
  induction l1 as [|[g objs] l1 IH]; intros acc w Hrep.
  - assert ((f, []) ∈ a) as Hin by (apply Hsub, elem_of_cons; by left).
    destruct (Hcontents (store w) a f [] Hrep Hin)
      as (resp & st' & Heq & Hc & _).
    cbn [app map fst collect_folder_dates]. unfold mbind.
    rewrite (s3_list_run bucket _ _ _ _ _ Heq), Hc. cbn [present].
    by eexists.
  - apply Forall_cons in Hne as [Hobjs Hne]. cbn [snd] in Hobjs.
    assert ((g, objs) ∈ a) as Hin by (apply Hsub, elem_of_cons; by left).
    destruct (Hcontents (store w) a g objs Hrep Hin)
      as (resp & st' & Heq & Hc & Hrep').
    destruct (py_min_spec objs Hobjs) as (m & Hm & _).
    cbn [app map fst collect_folder_dates]. unfold mbind at 1.
    rewrite (s3_list_run bucket _ _ _ _ _ Heq), Hc.
    destruct objs as [|o objs]; [done|]. cbn [present]. rewrite Hm.
    destruct (IH (λ fo Hfo, Hsub fo (proj2 (elem_of_cons _ _ _) (or_intror Hfo)))
                Hne (acc ++ [(g, LastModified m)])
                {| store := st'; deleted := deleted w |} Hrep')
      as (w' & Hrun & Hdel).
    exists w'. split; [exact Hrun|done].
Qed.

(** X21.  In a store that reflects the archive faithfully, when the archive
    is over the limit and holds a sub-folder without objects, the rotation
    call raises the missing-contents error for the first such sub-folder and
    deletes nothing. *)
Theorem rotation_empty_folder_raises (st : St) (a1 a2 : archive_view)
    (f : string) :
  represents st (a1 ++ (f, []) :: a2) →
  Forall (λ fo, fo.2 ≠ []) a1 →
  limit < Z.of_nat (length (a1 ++ (f, []) :: a2)) →
  ∃ w',
    rotate bucket project_folder archive_folder limit st
    = (Raise (ContentsNotFound f), w')
    ∧ deleted w' = [].
Proof.
  intros Hrep Hne Hcount.
  destruct Hfaithful as (Hlist & _).
  destruct (Hlist st _ Hrep) as (resp & st1 & Hl & Hcp & Hrep1).
  unfold rotate, monitor_and_maintain_archive_limit, mbind.
  rewrite (s3_list_run bucket _ _ {| store := st; deleted := [] |} _ _ Hl), Hcp.
  assert (present (map fst (a1 ++ (f, []) :: a2))
          = Some (map fst (a1 ++ (f, []) :: a2))) as ->.
  { rewrite map_app. by destruct (map fst a1). }
  cbn [while_loop deleted store]. rewrite length_map.
  destruct (Z.gtb_spec (Z.of_nat (length (a1 ++ (f, []) :: a2))) limit);
    [|lia].
  change (0 + 1 >? max_iterations) with false. cbv iota.
  destruct (collect_hits_empty (a1 ++ (f, []) :: a2) a1 a2 f []
              {| store := st1; deleted := [] |} Hrep1 (λ _ H, H) Hne)
    as (w' & Hrun & Hdel).
  unfold mbind. rewrite Hrun. by exists w'.
Qed.

End Corrupt.

End RotationMore.

(** ** The archive writers *)

Section WritersMore.
Import Pandas RdsProcessor S3BucketUtil S3Archive.
Context {St : Type} `{!S3Client St} `{!S3Writer St}.
Variables (to_csv : DataFrame → string) (clock : nat → datetime).
Variables (bucket project_folder archive_folder : string).

Lemma put_run (key : string) (body : option string) (e : archive_error)
    (s : session St) u st' :
  put_object bucket key body (store (s3 s)) = (Some u, st') →
  put bucket key body e s
  = (Ok tt, {| s3 := {| store := st'; deleted := deleted (s3 s) |};
               uploaded := uploaded s ++ [(key, body)];
               ticks := ticks s |}).
Proof. intros Heq. unfold put. by rewrite Heq. Qed.

(** X22.  When the listing and the upload succeed, [update_active_data]
    uploads the table once, under the key made of project folder, active
    folder and file name, whether the listing shows that key or not. *)
Theorem update_active_data_uploads_once (active_folder file_name : string)
    (data : DataFrame) (s : session St) (resp : list_response) (st1 st2 : St)
    (u : unit) :
  let key := project_folder +:+ active_folder +:+ file_name in
  list_objects_v2 bucket key None (store (s3 s)) = (Some resp, st1) →
  put_object bucket key (Some (to_csv data)) st1 = (Some u, st2) →
  update_active_data to_csv bucket project_folder active_folder file_name
    data s
  = (Ok tt, {| s3 := {| store := st2; deleted := deleted (s3 s) |};
               uploaded := uploaded s ++ [(key, Some (to_csv data))];
               ticks := ticks s |}).
Proof.
  intros key Hl Hp. unfold update_active_data, abind, listing.
  fold key. rewrite Hl.
  destruct (match Contents resp with
            | Some contents =>
                existsb (λ item, String.eqb (Key item) key) contents
            | None => false
            end);
    by rewrite (put_run key _ _ (with_store s st1) u st2 Hp).
Qed.

(** Uploading the sections never deletes and never takes an upload back. *)
Lemma upload_sections_keeps (date_folder : string)
    (items : list (string * DataFrame)) (s : session St) :
  let r := upload_sections to_csv clock bucket project_folder archive_folder
             date_folder items s in
  uploaded s `prefix_of` uploaded r.2
  ∧ deleted (s3 r.2) = deleted (s3 s)
  ∧ (ticks s ≤ ticks r.2)%nat.
Proof.
  cbv zeta. revert s. induction items as [|[section content] items IH];
    intros s; [done|].
  cbn [upload_sections].
  destruct (String.eqb section "Duplicates").
  - unfold abind, put.
    destruct (put_object bucket _ _ (store (s3 s))) as [[u|] st']; [|done].
    match goal with |- context [upload_sections _ _ _ _ _ _ _ ?s1] =>
      destruct (IH s1) as (Hp & Hd & Ht) end.
    cbn [uploaded s3 deleted ticks] in Hp, Hd, Ht.
    split; [|done]. etrans; [|exact Hp]. by apply prefix_app_r.
  - destruct (String.eqb section "Data"); [|apply IH].
    unfold abind, datetime_now, put. cbn [s3 uploaded ticks].
    destruct (put_object bucket _ _ (store (s3 s))) as [[u|] st']; cbn.
    2:{ split; [done|]. split; [done|]. lia. }
    match goal with |- context [upload_sections _ _ _ _ _ _ _ ?s1] =>
      destruct (IH s1) as (Hp & Hd & Ht) end.
    cbn [uploaded s3 deleted ticks] in Hp, Hd, Ht.
    split; [|split; [done|lia]]. etrans; [|exact Hp]. by apply prefix_app_r.
Qed.

(** X23.  Whatever its outcome, [add_archive_package] deletes nothing and
    takes no upload back: the uploads done before are a prefix of the uploads
    after.  It either returns normally or raises its own cycling error. *)
Theorem add_archive_package_never_undoes (date_folder : string)
    (archive_package : package) (s s' : session St)
    (r : result archive_error unit) :
  add_archive_package to_csv clock bucket project_folder archive_folder
    date_folder archive_package s = (r, s') →
  uploaded s `prefix_of` uploaded s'
  ∧ deleted (s3 s') = deleted (s3 s)
  ∧ (r = Ok tt ∨ ∃ cause, r = Raise (FailedToCycle cause)).
Proof.
  unfold add_archive_package. destruct archive_package as [|items].
  - intros [= <- <-]. split; [done|]. split; [done|]. right. by eexists.
  - intros Hrun.
    pose proof (upload_sections_keeps date_folder items s) as Hk.
    cbv zeta in Hk. rewrite Hrun in Hk. destruct Hk as (Hp & Hd & _).
    split; [done|]. split; [done|].
    clear Hp Hd. revert s Hrun.
    induction items as [|[section content] items IH]; intros s Hrun.
    + injection Hrun as <- _. by left.
    + cbn [upload_sections] in Hrun.
      destruct (String.eqb section "Duplicates").
      * unfold abind, put in Hrun.
        destruct (put_object bucket _ _ (store (s3 s))) as [[u|] st'].
        -- by apply IH in Hrun.
        -- injection Hrun as <- _. right. by eexists.
      * destruct (String.eqb section "Data"); [|by apply IH in Hrun].
        unfold abind, datetime_now, put in Hrun. cbn [s3 uploaded ticks] in Hrun.
        destruct (put_object bucket _ _ (store (s3 s))) as [[u|] st'].
        -- by apply IH in Hrun.
        -- injection Hrun as <- _. right. by eexists.
Qed.

Section Accepting.
(** The store accepts every upload. *)
Hypothesis Haccept :
  ∀ key body st, ∃ st', put_object bucket key body st = (Some tt, st').

(** X24.  In a store that accepts every upload, handing the archive of a
    successful [query_to_df] to [add_archive_package] uploads two objects
    into the dated folder, [Duplicates.csv] and then the data file named after
    one clock reading; the table exported as [Duplicates.csv] has no rows. *)
Theorem archive_of_pull_uploads_empty_duplicates (self self' : RDS)
    (cur : cursor) (d : DataFrame) (date_folder : string) (s : session St) :
  query_to_df self cur = (Ok d, self') →
  ∃ s' dups,
    add_archive_package to_csv clock bucket project_folder archive_folder
      date_folder (package_of (archive self')) s = (Ok tt, s')
    ∧ rows dups = [] ∧ columns dups = columns d
    ∧ uploaded s'
      = uploaded s
          ++ [(project_folder +:+ archive_folder +:+ date_folder
                 +:+ "Duplicates.csv", Some (to_csv dups));
              (project_folder +:+ archive_folder +:+ date_folder
                 +:+ "Archived-Data-" +:+ strftime "-" (clock (ticks s))
                 +:+ ".csv", Some (to_csv d))]
    ∧ ticks s' = Datatypes.S (ticks s)
    ∧ deleted (s3 s') = deleted (s3 s).
Proof.
  intros Hq.
  destruct (query_to_df_ok_inv _ _ _ _ Hq)
    as (q & pulled & _ & _ & _ & _ & Hd & ->).
  cbn [archive package_of add_archive_package upload_sections].
  change (String.eqb "Duplicates" "Duplicates") with true.
  change (String.eqb "Data" "Duplicates") with false.
  change (String.eqb "Data" "Data") with true. cbv iota.
  set (dups := getitem_mask d (duplicated d)).
  set (k1 := project_folder +:+ archive_folder +:+ date_folder
               +:+ "Duplicates.csv").
  destruct (Haccept k1 (Some (to_csv dups)) (store (s3 s))) as [st1 H1].
  unfold abind at 1. rewrite (put_run k1 _ _ s tt st1 H1).
  unfold abind at 1, datetime_now at 1. cbn [s3 uploaded ticks].
  set (k2 := project_folder +:+ archive_folder +:+ date_folder
               +:+ "Archived-Data-" +:+ strftime "-" (clock (ticks s))
               +:+ ".csv").
  destruct (Haccept k2 (Some (to_csv d)) st1) as [st2 H2].
  unfold abind.
  rewrite (put_run k2 _ _
             {| s3 := {| store := st1; deleted := deleted (s3 s) |};
                uploaded := uploaded s ++ [(k1, Some (to_csv dups))];
                ticks := Datatypes.S (ticks s) |} tt st2 H2).
  eexists _, dups. split; [reflexivity|].
  split; [subst dups d; apply duplicates_taken_after_drop_empty|].
  split; [done|]. cbn. by rewrite <- app_assoc.
Qed.

(** X25.  When the cleaning returns normally and the store accepts every
    upload, [add_archive] creates the dated folder, then uploads
    [Duplicates.csv] and the data file inside it, in this order; the folder is
    named after the first clock reading and the data file after the second. *)
Theorem add_archive_uploads_in_order (limit : Z) (dups data : DataFrame)
    (s : session St) (w : world St) :
  monitor_and_maintain_archive_limit bucket project_folder archive_folder
    limit (s3 s) = (Ok tt, w) →
  let folder :=
    project_folder +:+ archive_folder
      +:+ strftime " " (clock (ticks s)) +:+ "/" in
  ∃ s',
    add_archive to_csv clock bucket project_folder archive_folder limit
      (Dict [("Duplicates", dups); ("Data", data)]) s = (Ok tt, s')
    ∧ uploaded s'
      = uploaded s
          ++ [(folder, None);
              (folder +:+ "Duplicates.csv", Some (to_csv dups));
              (folder +:+ "Archived-Data-"
                 +:+ strftime "-" (clock (Datatypes.S (ticks s)))
                 +:+ ".csv", Some (to_csv data))]
    ∧ ticks s' = Datatypes.S (Datatypes.S (ticks s))
    ∧ deleted (s3 s') = deleted w.
Proof.
  intros Hclean folder. unfold add_archive.
  unfold abind at 1, clean_archive. rewrite Hclean.
  unfold abind at 1, datetime_now at 1. cbn [s3 uploaded ticks].
  destruct (Haccept folder None (store w)) as [st1 H1].
  unfold abind at 1.
  rewrite !append_assoc. fold folder.
  rewrite (put_run folder None _
             {| s3 := w; uploaded := uploaded s;
                ticks := Datatypes.S (ticks s) |} tt st1 H1).
  cbn [s3 uploaded ticks deleted].
  unfold upload_versions, add_archive_package.
  cbn [upload_sections].
  change (String.eqb "Duplicates" "Duplicates") with true.
  change (String.eqb "Data" "Duplicates") with false.
  change (String.eqb "Data" "Data") with true. cbv iota.
  set (k1 := project_folder +:+ archive_folder
               +:+ (strftime " " (clock (ticks s)) +:+ "/")
               +:+ "Duplicates.csv").
  destruct (Haccept k1 (Some (to_csv dups)) st1) as [st2 H2].
  unfold abind at 1.
  rewrite (put_run k1 _ _
             {| s3 := {| store := st1; deleted := deleted w |};
                uploaded := uploaded s ++ [(folder, None)];
                ticks := Datatypes.S (ticks s) |} tt st2 H2).
  unfold abind at 1, datetime_now at 1. cbn [s3 uploaded ticks deleted].
  set (k2 := project_folder +:+ archive_folder
               +:+ (strftime " " (clock (ticks s)) +:+ "/")
               +:+ "Archived-Data-"
               +:+ strftime "-" (clock (Datatypes.S (ticks s))) +:+ ".csv").
  destruct (Haccept k2 (Some (to_csv data)) st2) as [st3 H3].
  unfold abind.
  rewrite (put_run k2 _ _
             {| s3 := {| store := st2; deleted := deleted w |};
                uploaded := (uploaded s ++ [(folder, None)])
                              ++ [(k1, Some (to_csv dups))];
                ticks := Datatypes.S (Datatypes.S (ticks s)) |} tt st3 H3).
  eexists. split; [reflexivity|]. cbn [uploaded ticks s3 deleted].
  split; [|done]. rewrite <- !app_assoc. cbn [app].
  subst k1 k2 folder. by rewrite !append_assoc.
Qed.

(** X26.  Called with the archive of an object that has not pulled yet,
    [add_archive] creates the dated folder and only then raises: the empty
    folder stays in the store. *)
Theorem add_archive_without_package_leaves_folder (limit : Z)
    (s : session St) (w : world St) :
  monitor_and_maintain_archive_limit bucket project_folder archive_folder
    limit (s3 s) = (Ok tt, w) →
  ∃ s',
    add_archive to_csv clock bucket project_folder archive_folder limit
      (package_of None) s
    = (Raise (FailedToUploadVersions NotADictionary), s')
    ∧ uploaded s'
      = uploaded s
          ++ [(project_folder +:+ archive_folder
                 +:+ strftime " " (clock (ticks s)) +:+ "/", None)].
Proof.
  intros Hclean. unfold add_archive.
  unfold abind at 1, clean_archive. rewrite Hclean.
  unfold abind at 1, datetime_now at 1. cbn [s3 uploaded ticks].
  set (folder := (project_folder +:+ archive_folder)
                   +:+ strftime " " (clock (ticks s)) +:+ "/").
  destruct (Haccept folder None (store w)) as [st1 H1].
  unfold abind.
  rewrite (put_run folder None _
             {| s3 := w; uploaded := uploaded s;
                ticks := Datatypes.S (ticks s) |} tt st1 H1).
  eexists. split; [reflexivity|]. cbn [uploaded].
  subst folder. by rewrite !append_assoc.
Qed.

End Accepting.

(** X27.  In a store whose sub-folder count never drops to the limit (the
    deletion of a listed sub-folder's key being accepted each time),
    [add_archive] raises the cleaning error caused by the stuck loop after
    150 deletions, having read no clock and uploaded nothing. *)
Theorem add_archive_stuck_uploads_nothing (limit : Z) (inv : St → Prop)
    (is_folder : string → Prop) (archive_package : package) (st : St) :
  0 ≤ limit →
  never_drops bucket (project_folder +:+ archive_folder) limit inv is_folder →
  inv st →
  ∃ s',
    add_archive to_csv clock bucket project_folder archive_folder limit
      archive_package (fresh_session st)
    = (Raise (FailedToCleanArchive StuckInWhileLoop), s')
    ∧ uploaded s' = [] ∧ ticks s' = 0%nat
    ∧ length (deleted (s3 s')) = 150%nat.
Proof.
  intros Hlimit Hstuck Hinv.
  destruct (rotate_stuck bucket project_folder archive_folder limit
              inv is_folder Hlimit Hstuck st Hinv) as (w' & Hrun & Hlen).
  unfold rotate in Hrun.
  unfold add_archive, abind, clean_archive, fresh_session. cbn [s3].
  rewrite Hrun. by eexists.
Qed.

End WritersMore.

(** ** The properties above at concrete inputs *)

Section Instances.
Import RdsQueryUtils Spec QueryText SelectList QueryPackage Codecs Pandas.
Import RdsProcessor S3BucketUtil S3Archive Latin1 Examples MoreExamples.

Lemma unknown_cardinality_adds_no_join_witness :
  text_before_join source_a [single_item; other_item] 2
  = text_before_join source_a [single_item; other_item] 1.
Proof.
  apply (unknown_cardinality_adds_no_join source_a [single_item; other_item]
           1 other_item); [reflexivity|discriminate|discriminate].
Defined.

Lemma select_list_ends_without_comma_witness :
  last (select_lines source_a ([single_item] ++ [other_item]))
  = Some {| sl_alias := "notes"; sl_column := "value"; sl_name := "notes";
            sl_comma := false |}.
Proof.
  apply (select_list_ends_without_comma source_a [single_item] other_item
           [] [] ("value", "notes")).
  - reflexivity.
  - apply (bool_decide_unpack _). vm_compute. exact I.
Defined.

Lemma unicode_escape_interprets_backslash_witness :
  unicode_escape ("id" +:+ "\n" +:+ "x") = Ok ("id" +:+ nl +:+ "x")
  ∧ unicode_escape ("id" +:+ "\") = Raise BackslashAtEnd.
Proof.
  apply (unicode_escape_interprets_backslash "id" "x"); reflexivity.
Defined.


Lemma build_query_on_plain_descriptors_witness :
  plain (query_text source_a three_joins) = true
  ∧ build_query (Some source_a) (Some three_joins) None
    = Ok (Some (query_text source_a three_joins)).
Proof.
  apply (build_query_on_plain_descriptors source_a three_joins); reflexivity.
Defined.

Lemma packaged_single_join_on_declared_alias_witness :
  ∃ src,
    unpack_query (Some (build_query_package 34 three_joins))
    = Ok (Some src, Some three_joins)
    ∧ ∃ post,
        query_text src three_joins
        = text_before_join src three_joins 0
            +:+ nl +:+ "LEFT JOIN application_data_answer " +:+ bridge_alias 0
            +:+ " ON " +:+ src_name src +:+ ".id = " +:+ bridge_alias 0
            +:+ ".application_id AND " +:+ bridge_alias 0
            +:+ ".question_id = " +:+ pretty 10 +:+ post.
Proof.
  apply (packaged_single_join_on_declared_alias 34 three_joins 0 single_item);
    reflexivity.
Defined.

Lemma rds_sql_pull_frame_witness :
  ∃ cols data,
    twice_cursor "SELECT 1" = Some (cols, data)
    ∧ columns {| columns := ["application_number"];
                 rows := [(0%nat, [CInt 7]); (1%nat, [CInt 7])] |} = cols
    ∧ map fst [(0%nat, [CInt 7]); (1%nat, [CInt 7])] = seq 0 (length data)
    ∧ Forall (λ r : nat * list cell, length r.2 = length cols)
        [(0%nat, [CInt 7]); (1%nat, [CInt 7])].
Proof.
  apply (rds_sql_pull_frame twice_cursor "SELECT 1"
           {| columns := ["application_number"];
              rows := [(0%nat, [CInt 7]); (1%nat, [CInt 7])] |}).
  reflexivity.
Defined.

Lemma check_schema_verdict_witness :
  ∃ check,
    check_schema (fresh_rds ["x"; "y"] None) (one_row ["x"])
    = (Ok check,
       set_fields_missing (fresh_rds ["x"; "y"] None)
         ([] ++ filter (λ f, f ∉ ["x"]) ["x"; "y"]))
    ∧ (check = true ↔ ∀ f, f ∈ ["x"; "y"] → f ∈ ["x"])
    ∧ (check = false ↔ ∃ f, f ∈ ["x"; "y"] ∧ f ∉ ["x"]).
Proof.
  apply (check_schema_verdict (fresh_rds ["x"; "y"] None) (one_row ["x"])).
  reflexivity.
Defined.

Lemma query_to_df_returns_first_occurrences_witness :
  ∃ q pulled,
    Some "SELECT 1" = Some q ∧ rds_sql_pull twice_cursor q = Ok pulled
    ∧ {| columns := ["application_number"]; rows := [(0%nat, [CInt 7])] |}
      = {| columns := ["application_number"]; rows := [(0%nat, [CInt 7])] |}
    ∧ ["application_number"] = columns pulled
    ∧ [(0%nat, [CInt 7])] `sublist_of` rows pulled
    ∧ NoDup (map snd [(0%nat, [CInt 7])])
    ∧ (∀ r, r ∈ rows pulled → r.2 ∈ map snd [(0%nat, [CInt 7])])
    ∧ (∀ i r, rows pulled !! i = Some r →
         (∀ j r', (j < i)%nat → rows pulled !! j = Some r' → r'.2 ≠ r.2) →
         r ∈ [(0%nat, [CInt 7])]).
Proof.
  apply (query_to_df_returns_first_occurrences
           (fresh_rds ["application_number"] (Some "SELECT 1"))
           {| schema := ["application_number"]; query := Some "SELECT 1";
              duplicates := {| columns := ["application_number"]; rows := [] |};
              archive := Some ({| columns := ["application_number"];
                                  rows := [] |},
                               {| columns := ["application_number"];
                                  rows := [(0%nat, [CInt 7])] |});
              fields_missing := [];
              df := {| columns := ["application_number"];
                       rows := [(0%nat, [CInt 7])] |} |}
           twice_cursor
           {| columns := ["application_number"];
              rows := [(0%nat, [CInt 7])] |}).
  vm_compute. reflexivity.
Defined.

Lemma query_to_df_failure_witness :
  let self := fresh_rds ["x"] (Some "SELECT 1") in
  df self = df self ∧ duplicates self = duplicates self
  ∧ archive self = archive self
  ∧ FailedToPullRows CursorRaised ≠ EmptyWhenCheckingSchema
  ∧ (FailedToPullRows CursorRaised ≠ SchemaDidNotMatch → self = self)
  ∧ (FailedToPullRows CursorRaised = SchemaDidNotMatch →
     ∃ missing, missing ≠ []
       ∧ fields_missing self = fields_missing self ++ missing
       ∧ ∀ f, f ∈ missing → f ∈ schema self).
Proof.
  apply (query_to_df_failure (fresh_rds ["x"] (Some "SELECT 1"))
           (fresh_rds ["x"] (Some "SELECT 1")) broken_cursor
           (FailedToPullRows CursorRaised)).
  reflexivity.
Defined.

Lemma explicit_schema_with_package_checks_nothing_witness :
  let self :=
    {| schema := []; query := Some "SELECT 1"; duplicates := empty_frame;
       archive := None; fields_missing := []; df := empty_frame |} in
  schema self = []
  ∧ ∀ data, empty data = false → check_schema self data = (Ok true, self).
Proof.
  apply (explicit_schema_with_package_checks_nothing broken_cursor
           (build_query_package 34 three_joins) false ["wanted"] None
           (Some "SELECT 1")).
  reflexivity.
Defined.

Lemma rotation_within_limit_deletes_nothing_witness :
  rotate "bucket" "p/" "a/" 5 (snapshots 2)
  = (Ok tt, {| store := snapshots 2; deleted := [] |}).
Proof.
  apply (rotation_within_limit_deletes_nothing "bucket" "p/" "a/" 5
           (snapshots 2) (snapshots 2)
           {| Contents := None;
              CommonPrefixes := present (map fst (snapshots 2)) |}).
  - reflexivity.
  - intros l [= <-]. cbn. lia.
Defined.

Lemma rotation_empty_folder_raises_witness :
  ∃ w',
    rotate "bucket" "p/" "a/" 1 broken_archive
    = (Raise (ContentsNotFound "p/a/1/"), w')
    ∧ deleted w' = [].
Proof.
  apply (rotation_empty_folder_raises "bucket" "p/" "a/" 1
           (λ (s v : archive_view), s = v ∧ NoDup (map fst v))
           (folder_store_faithful "bucket" "p/a/")
           broken_archive [snapshot 2] [] "p/a/1/").
  - split; [reflexivity|]. apply (bool_decide_unpack _). vm_compute. exact I.
  - apply (bool_decide_unpack _). vm_compute. exact I.
  - cbn. lia.
Defined.

Lemma update_active_data_uploads_once_witness :
  update_active_data csv_header "bucket" "p/" "active/" "data.csv"
    (one_row ["x"]) (fresh_session small_bucket)
  = (Ok tt,
     {| s3 := {| store := {| view := snapshots 2;
                             objects := [("p/active/data.csv",
                                          Some (csv_header (one_row ["x"])))] |};
                 deleted := [] |};
        uploaded := [] ++ [("p/active/data.csv",
                            Some (csv_header (one_row ["x"])))];
        ticks := 0 |}).
Proof.
  apply (update_active_data_uploads_once csv_header "bucket" "p/" "active/"
           "data.csv" (one_row ["x"]) (fresh_session small_bucket)
           {| Contents := None; CommonPrefixes := None |} small_bucket
           {| view := snapshots 2;
              objects := [("p/active/data.csv",
                           Some (csv_header (one_row ["x"])))] |} tt);
    reflexivity.
Defined.

Lemma add_archive_package_never_undoes_witness :
  let s := fresh_session small_bucket in
  uploaded s `prefix_of` uploaded s
  ∧ deleted (s3 s) = deleted (s3 s)
  ∧ (@Raise archive_error unit (FailedToCycle NotADictionary) = Ok tt
     ∨ ∃ cause, @Raise archive_error unit (FailedToCycle NotADictionary)
                = Raise (FailedToCycle cause)).
Proof.
  apply (add_archive_package_never_undoes csv_header ticking "bucket" "p/"
           "a/" "2024/" NotADict (fresh_session small_bucket)
           (fresh_session small_bucket)
           (Raise (FailedToCycle NotADictionary))).
  reflexivity.
Defined.

Lemma small_bucket_accepts :
  ∀ (key : string) (body : option string) (st : bucket_store),
    ∃ st', put_object "bucket" key body st = (Some tt, st').
Proof. intros key body st. by eexists. Qed.

Lemma archive_of_pull_uploads_empty_duplicates_witness :
  let d := {| columns := ["application_number"];
              rows := [(0%nat, [CInt 7])] |} in
  let s := fresh_session small_bucket in
  ∃ s' dups,
    add_archive_package csv_header ticking "bucket" "p/" "a/" "2024/"
      (package_of (Some ({| columns := ["application_number"]; rows := [] |},
                         d))) s = (Ok tt, s')
    ∧ rows dups = [] ∧ columns dups = columns d
    ∧ uploaded s'
      = uploaded s
          ++ [("p/" +:+ "a/" +:+ "2024/" +:+ "Duplicates.csv",
               Some (csv_header dups));
              ("p/" +:+ "a/" +:+ "2024/" +:+ "Archived-Data-"
                 +:+ strftime "-" (ticking (ticks s)) +:+ ".csv",
               Some (csv_header d))]
    ∧ ticks s' = Datatypes.S (ticks s)
    ∧ deleted (s3 s') = deleted (s3 s).
Proof.
  apply (archive_of_pull_uploads_empty_duplicates csv_header ticking
           "bucket" "p/" "a/" small_bucket_accepts
           (fresh_rds ["application_number"] (Some "SELECT 1"))
           {| schema := ["application_number"]; query := Some "SELECT 1";
              duplicates := {| columns := ["application_number"]; rows := [] |};
              archive := Some ({| columns := ["application_number"];
                                  rows := [] |},
                               {| columns := ["application_number"];
                                  rows := [(0%nat, [CInt 7])] |});
              fields_missing := [];
              df := {| columns := ["application_number"];
                       rows := [(0%nat, [CInt 7])] |} |}
           twice_cursor).
  vm_compute. reflexivity.
Defined.

Lemma add_archive_uploads_in_order_witness :
  let s := fresh_session small_bucket in
  let folder := "p/" +:+ "a/" +:+ strftime " " (ticking (ticks s)) +:+ "/" in
  ∃ s',
    add_archive csv_header ticking "bucket" "p/" "a/" 5
      (Dict [("Duplicates", empty_frame); ("Data", one_row ["x"])]) s
    = (Ok tt, s')
    ∧ uploaded s'
      = uploaded s
          ++ [(folder, None);
              (folder +:+ "Duplicates.csv", Some (csv_header empty_frame));
              (folder +:+ "Archived-Data-"
                 +:+ strftime "-" (ticking (Datatypes.S (ticks s)))
                 +:+ ".csv", Some (csv_header (one_row ["x"])))]
    ∧ ticks s' = Datatypes.S (Datatypes.S (ticks s))
    ∧ deleted (s3 s') = deleted {| store := small_bucket; deleted := [] |}.
Proof.
  apply (add_archive_uploads_in_order csv_header ticking "bucket" "p/" "a/"
           small_bucket_accepts 5 empty_frame (one_row ["x"])
           (fresh_session small_bucket)
           {| store := small_bucket; deleted := [] |}).
  reflexivity.
Defined.

Lemma add_archive_without_package_leaves_folder_witness :
  let s := fresh_session small_bucket in
  ∃ s',
    add_archive csv_header ticking "bucket" "p/" "a/" 5 (package_of None) s
    = (Raise (FailedToUploadVersions NotADictionary), s')
    ∧ uploaded s'
      = uploaded s
          ++ [("p/" +:+ "a/" +:+ strftime " " (ticking (ticks s)) +:+ "/",
               None)].
Proof.
  apply (add_archive_without_package_leaves_folder csv_header ticking
           "bucket" "p/" "a/" small_bucket_accepts 5
           (fresh_session small_bucket)
           {| store := small_bucket; deleted := [] |}).
  reflexivity.
Defined.

Lemma add_archive_stuck_uploads_nothing_witness :
  ∃ s',
    add_archive csv_header ticking "bucket" "p/" "a/" 1 NotADict
      (fresh_session {| folders := snapshots 2 |})
    = (Raise (FailedToCleanArchive StuckInWhileLoop), s')
    ∧ uploaded s' = [] ∧ ticks s' = 0%nat
    ∧ length (deleted (s3 s')) = 150%nat.
Proof.
  apply (add_archive_stuck_uploads_nothing csv_header ticking "bucket" "p/"
           "a/" 1
           (λ s, map fst (folders s) = map fst (snapshots 2)
                 ∧ keeps_payload (map fst (snapshots 2)) (folders s))
           (λ f, f ∈ map fst (snapshots 2))).
  - lia.
  - apply object_store_never_drops.
    + cbn. lia.
    + discriminate.
  - split; [reflexivity|].
    apply (bool_decide_unpack _). vm_compute. exact I.
Defined.

End Instances.
